(** * RealmStorage: a schema-checked facade over a Realm instance

    Shallow embedding of [src/realmStorage.js] and the properties its
    specification states about it.

    The class keeps its state in static fields and talks to the embedded
    database through [Realm]'s API.  Here the static fields, the engine
    instance and what the error sink can reach form an explicit [World];
    every method is a function from worlds to a completion (normal return or
    throw) and a new world.  An [async] method settles its promise with the
    completion of its body, so fulfilment is [Normal] and rejection is
    [Throw]. *)

From stdpp Require Import gmap strings list pretty.

Local Open Scope Z_scope.

(** ** The fragment of the JavaScript runtime the class uses *)

Module Js.

(** Primitive values that occur as field values of plain objects.
    [VNumber] carries the integer-valued numbers whose decimal expansion
    is what [ToString] prints (magnitude below 10^21). *)
Inductive Value :=
| VUndefined
| VNull
| VBool (b : bool)
| VNumber (z : Z)
| VString (s : string).

#[global] Instance Value_eq_dec : EqDecision Value.
Proof. solve_decision. Defined.

(** The abstract operation [ToString] behind template literals. *)
Definition ToString (v : Value) : string :=
  match v with
  | VUndefined => "undefined"
  | VNull => "null"
  | VBool true => "true"
  | VBool false => "false"
  | VNumber z => pretty z
  | VString s => s
  end.

(** Truthiness of a string: only the empty string is falsy. *)
Definition truthy_string (s : string) : bool :=
  negb (String.eqb s "").

(** A plain object: its own enumerable properties, listed in the order
    [Object.keys] yields them. *)
Definition Object := list (string * Value).

Definition keys (o : Object) : list string := o.*1.

(** Property read [o[k]]; an absent property reads as [undefined]. *)
Fixpoint get (o : Object) (k : string) : Value :=
  match o with
  | [] => VUndefined
  | (k', v) :: o' => if String.eqb k' k then v else get o' k
  end.

(** Property write [o[k] = v]: an existing property keeps its position,
    a new one is added last. *)
Fixpoint set (o : Object) (k : string) (v : Value) : Object :=
  match o with
  | [] => [(k, v)]
  | (k', v') :: o' =>
      if String.eqb k' k then (k', v) :: o' else (k', v') :: set o' k v
  end.

(** [arr.push(x)]. *)
Definition push {A} (arr : list A) (x : A) : list A := arr ++ [x].

(** [arr.join(sep)] on an array of strings: the result starts empty, and
    every element but the first is preceded by the separator. *)
Definition join (sep : string) (arr : list string) : string :=
  (fold_left
     (fun '(R, k) element =>
        (if (0 <? k) then R +:+ sep +:+ element else R +:+ element, k + 1))
     arr ("", 0)).1.

(** [arr.indexOf(x)] on an array of strings: the first index holding [x],
    or -1. *)
Fixpoint indexOf_from (arr : list string) (x : string) (k : Z) : Z :=
  match arr with
  | [] => -1
  | y :: arr' => if String.eqb y x then k else indexOf_from arr' x (k + 1)
  end.

Definition indexOf (arr : list string) (x : string) : Z :=
  indexOf_from arr x 0.

(** An error object, by the two properties that describe it: [name] is
    the name of its class ("Error", "TypeError", ...). *)
Record Error := mkError { name : string; message : string }.

#[global] Instance Error_eq_dec : EqDecision Error.
Proof. solve_decision. Defined.

(** [new Error(msg)] for a string [msg]. *)
Definition new_Error (msg : string) : Error :=
  {| name := "Error"; message := msg |}.

(** [Error.prototype.toString]. *)
Definition Error_toString (e : Error) : string :=
  if String.eqb (name e) "" then message e
  else if String.eqb (message e) "" then name e
  else name e +:+ ": " +:+ message e.

(** [new Error(error)] for an error object: the argument is converted
    with [ToString], which calls its [toString] method. *)
Definition new_Error_from (error : Error) : Error :=
  new_Error (Error_toString error).

(** The error of a member call on [null] or [undefined].  The wording is
    the host's; nothing below depends on it. *)
Definition TypeError_member (member : string) : Error :=
  {| name := "TypeError";
     message := "Cannot read property '" +:+ member +:+ "' of null" |}.

(** What [console.error] was given. *)
Inductive ConsoleArg :=
| LogString (s : string)
| LogError (e : Error).

End Js.

(** ** The engine: the part of Realm's API the class calls *)

Module Realm.

(** A schema definition, by the two properties the class reads.  The
    property specification is the engine's own and is never inspected. *)
Record Schema := mkSchema { name : string; primaryKey : option string }.

(** What a lookup hands back: a results collection, or [null]/[undefined].
    The second case is what [if (data)] guards against. *)
Inductive Lookup (R : Type) :=
| Results (d : R)
| Nullish.
Arguments Results {R} d.
Arguments Nullish {R}.

(** The engine is an external collaborator: its operations are taken as
    parameters.  [instance] is the state of an open Realm, [results] a
    results collection, [object] a stored record.  Every operation may
    throw ([inl]). *)
Class Engine := {
  instance : Type;
  results : Type;
  object : Type;
  (** [new Realm({schema, schemaVersion, migration})] *)
  construct : list Schema -> Z -> (instance -> instance) ->
              Js.Error + instance;
  (** [realm.objects(key)] *)
  objects : string -> instance -> Js.Error + Lookup results;
  (** [results.filtered(query)] *)
  filtered : results -> string -> instance -> Js.Error + Lookup results;
  (** [realm.create(key, value, update)] *)
  create : string -> Js.Object -> bool -> instance ->
           Js.Error + (object * instance);
  (** [realm.delete(item)] on one record *)
  delete_object : object -> instance -> Js.Error + instance;
  (** [realm.delete(data)] on a results collection *)
  delete_results : results -> instance -> Js.Error + instance
}.

(** The engine calls a run makes, in order. *)
Inductive Call `{Engine} :=
| Objects (key : string)
| Filtered (d : results) (query : string)
| Begin
| Create (key : string) (value : Js.Object) (update : bool)
| DeleteObject (item : object)
| DeleteResults (d : results)
| Commit
| Cancel.

End Realm.

(** ** The class *)

Section RealmStorage.

Context `{E : Realm.Engine}.

(** [App] is whatever the error callback can reach: the application's own
    state.  The callback is taken to return normally, as its declared type
    [(error: Error) => void] says, and not to call back into the class. *)
Context {App : Type}.

(** The static fields of the class, and around them the application state,
    the console and the record of engine calls. *)
Record World := mkWorld {
  schemas : list Realm.Schema;
  schemaNames : list string;
  primaryKeys : gmap string (option string);
  errorCallback : option (Js.Error -> App -> App);
  realm : Realm.instance;
  app : App;
  console : list Js.ConsoleArg;
  calls : list Realm.Call
}.

Definition with_realm (r : Realm.instance) (w : World) : World :=
  mkWorld (schemas w) (schemaNames w) (primaryKeys w) (errorCallback w)
          r (app w) (console w) (calls w).

Definition with_app (a : App) (w : World) : World :=
  mkWorld (schemas w) (schemaNames w) (primaryKeys w) (errorCallback w)
          (realm w) a (console w) (calls w).

Definition with_console (c : list Js.ConsoleArg) (w : World) : World :=
  mkWorld (schemas w) (schemaNames w) (primaryKeys w) (errorCallback w)
          (realm w) (app w) c (calls w).

Definition with_calls (l : list Realm.Call) (w : World) : World :=
  mkWorld (schemas w) (schemaNames w) (primaryKeys w) (errorCallback w)
          (realm w) (app w) (console w) l.

(** *** Completions and the monad of methods *)

Inductive Completion (A : Type) :=
| Normal (a : A)
| Throw (error : Js.Error).
Arguments Normal {A} a.
Arguments Throw {A} error.

Definition M (A : Type) : Type := World -> Completion A * World.

#[global] Instance M_ret : MRet M := fun A a w => (Normal a, w).

#[global] Instance M_bind : MBind M := fun A B f m w =>
  match m w with
  | (Normal a, w1) => f a w1
  | (Throw error, w1) => (Throw error, w1)
  end.

Definition throw {A} (error : Js.Error) : M A := fun w => (Throw error, w).

(** [try { body } catch (error) { handler }] *)
Definition try_catch {A} (body : M A) (handler : Js.Error -> M A) : M A :=
  fun w =>
    match body w with
    | (Normal a, w1) => (Normal a, w1)
    | (Throw error, w1) => handler error w1
    end.

(** [for (const x of xs) { body }] *)
Fixpoint for_of {A} (xs : list A) (body : A -> M unit) : M unit :=
  match xs with
  | [] => mret tt
  | x :: xs' => body x ;; for_of xs' body
  end.

(** *** Calls into the engine, each one recorded *)

Definition record (c : Realm.Call) (w : World) : World :=
  with_calls (calls w ++ [c]) w.

(** A call that reads the instance. *)
Definition engine_read {A} (c : Realm.Call)
    (f : Realm.instance -> Js.Error + A) : M A :=
  fun w =>
    let w1 := record c w in
    match f (realm w) with
    | inl error => (Throw error, w1)
    | inr a => (Normal a, w1)
    end.

(** A call that changes the instance and returns a value. *)
Definition engine_write {A} (c : Realm.Call)
    (f : Realm.instance -> Js.Error + (A * Realm.instance)) : M A :=
  fun w =>
    let w1 := record c w in
    match f (realm w) with
    | inl error => (Throw error, w1)
    | inr (a, r) => (Normal a, with_realm r w1)
    end.

(** A call that changes the instance and returns nothing. *)
Definition engine_update (c : Realm.Call)
    (f : Realm.instance -> Js.Error + Realm.instance) : M unit :=
  fun w =>
    let w1 := record c w in
    match f (realm w) with
    | inl error => (Throw error, w1)
    | inr r => (Normal tt, with_realm r w1)
    end.

Definition realm_objects (key : string) : M (Realm.Lookup Realm.results) :=
  engine_read (Realm.Objects key) (Realm.objects key).

(** [data.filtered(query)]: the member call throws a [TypeError] when the
    receiver is [null] or [undefined]. *)
Definition results_filtered (data : Realm.Lookup Realm.results)
    (query : string) : M (Realm.Lookup Realm.results) :=
  match data with
  | Realm.Results d =>
      engine_read (Realm.Filtered d query) (Realm.filtered d query)
  | Realm.Nullish => throw (Js.TypeError_member "filtered")
  end.

Definition realm_create (key : string) (value : Js.Object) (update : bool)
    : M Realm.object :=
  engine_write (Realm.Create key value update) (Realm.create key value update).

Definition realm_delete_object (item : Realm.object) : M unit :=
  engine_update (Realm.DeleteObject item) (Realm.delete_object item).

Definition realm_delete_results (d : Realm.results) : M unit :=
  engine_update (Realm.DeleteResults d) (Realm.delete_results d).

(** Modelled from the spec: [realm.write(callback)] is the engine's write
    scope, which is not part of the repository.  It is atomic: the callback
    runs inside a transaction that is committed when the callback returns;
    when the callback throws, nothing of the scope is applied and the
    exception goes on to the caller.  The value of the callback stands for
    what it assigned to the local variable it captured. *)
Definition realm_write {A} (callback : M A) : M A :=
  fun w =>
    match callback (record Realm.Begin w) with
    | (Normal a, w1) => (Normal a, record Realm.Commit w1)
    | (Throw error, w1) =>
        (Throw error, record Realm.Cancel (with_realm (realm w) w1))
    end.

(** *** The methods *)

(** [version || 1]: an absent version and version 0 both give 1. *)
Definition version_or_1 (version : option Z) : Z :=
  match version with
  | Some v => if v =? 0 then 1 else v
  | None => 1
  end.

(** [setup(schemas, version, migration, errorCallback)], started with the
    application state [app0].  The world it returns is the one in which the
    other methods run; when the engine refuses to open, [setup] throws. *)
Definition setup (schemas : list Realm.Schema) (version : option Z)
    (migration : option (Realm.instance -> Realm.instance))
    (errorCallback : option (Js.Error -> App -> App)) (app0 : App)
    : Js.Error + World :=
  let schemaNames := map (fun schema => Realm.name schema) schemas in
  let primaryKeys :=
    fold_left
      (fun primaryKeys schema =>
         <[Realm.name schema := Realm.primaryKey schema]> primaryKeys)
      schemas (∅ : gmap string (option string)) in
  let defaultMigration := fun r : Realm.instance => r in
  match
    Realm.construct schemas (version_or_1 version)
      (default defaultMigration migration)
  with
  | inl error => inl error
  | inr r =>
      inr (mkWorld schemas schemaNames primaryKeys errorCallback r app0 [] [])
  end.

(** The error [checkSchema] throws for [key]. *)
Definition SchemaNotFoundError (key : string) : Js.Error :=
  Js.new_Error ("Schema for " +:+ key +:+ " it's not defined.").

Definition checkSchema (key : string) : M unit :=
  fun w =>
    (if Js.indexOf (schemaNames w) key <? 0
     then throw (SchemaNotFoundError key)
     else mret tt) w.

Definition onUncaught (error : Js.Error) : M unit :=
  fun w =>
    match errorCallback w with
    | Some callback => (Normal tt, with_app (callback error (app w)) w)
    | None =>
        (Normal tt,
         with_console
           (console w ++
            [Js.LogString
               "-------- ERROR CALLBACK NOT DEFINED ON STORAGE CLASS --------";
             Js.LogError error])
           w)
    end.

(** Each method that reaches the engine is one [try] block with the same
    [catch] clause; the block is named after its method. *)
Definition createItem_try (key : string) (value : Js.Object)
    : M Realm.object :=
  checkSchema key ;;
  item ← realm_write (realm_create key value false);
  mret item.

Definition createItem (key : string) (value : Js.Object) : M Realm.object :=
  try_catch (createItem_try key value)
    (fun error =>
       onUncaught error ;;
       throw (Js.new_Error_from error)).

Definition updateItem_try (key : string) (value : Js.Object)
    : M Realm.object :=
  checkSchema key ;;
  item ← realm_write (let updating := true in
                      realm_create key value updating);
  mret item.

Definition updateItem (key : string) (value : Js.Object) : M Realm.object :=
  try_catch (updateItem_try key value)
    (fun error =>
       onUncaught error ;;
       throw (Js.new_Error_from error)).

Definition deleteItem_try (item : Realm.object) : M unit :=
  realm_write (realm_delete_object item).

Definition deleteItem (item : Realm.object) : M unit :=
  try_catch (deleteItem_try item)
    (fun error =>
       onUncaught error ;;
       throw (Js.new_Error_from error)).

(** A filter: a query string or a mapping from field names to values. *)
Inductive Filter :=
| FString (s : string)
| FObject (o : Js.Object).

(** Truthiness of an optional argument ([None] is an omitted argument):
    an object is truthy, a string is truthy unless empty. *)
Definition truthy_filter (filter : option Filter) : bool :=
  match filter with
  | None => false
  | Some (FString s) => Js.truthy_string s
  | Some (FObject _) => true
  end.

Definition truthy_key (key : option string) : bool :=
  match key with
  | None => false
  | Some s => Js.truthy_string s
  end.

Definition convertFilter (filter : Filter) : string :=
  let query : list string := [] in
  match filter with
  | FString s => s
  | FObject o =>
      let query :=
        fold_left
          (fun query key =>
             Js.push query (key +:+ " = " +:+ Js.ToString (Js.get o key)))
          (Js.keys o) query in
      Js.join " AND " query
  end.

(** The lookup of [getItems]: what is assigned to [data]. *)
Definition getItems_data (key : string) (filter : option Filter)
    : M (Realm.Lookup Realm.results) :=
  match filter with
  | Some f =>
      if negb (truthy_filter filter)
      then realm_objects key
      else all ← realm_objects key; results_filtered all (convertFilter f)
  | None => realm_objects key
  end.

(** The result is the collection, or [None] for [null]. *)
Definition getItems_try (key : string) (filter : option Filter)
    : M (option Realm.results) :=
  checkSchema key ;;
  data ← getItems_data key filter;
  match data with
  | Realm.Results d => mret (Some d)
  | Realm.Nullish => mret None
  end.

Definition getItems (key : string) (filter : option Filter)
    : M (option Realm.results) :=
  try_catch (getItems_try key filter)
    (fun error =>
       onUncaught error ;;
       throw (Js.new_Error_from error)).

(** One type's records deleted in one write scope: the statements that
    follow the lookup in both branches of [removeAll]. *)
Definition delete_data (data : Realm.Lookup Realm.results) : M unit :=
  match data with
  | Realm.Results d => realm_write (realm_delete_results d)
  | Realm.Nullish => mret tt
  end.

(** The branch without a key: every defined schema in turn. *)
Definition removeAll_each : M unit :=
  fun w =>
    for_of (schemaNames w)
      (fun name => data ← realm_objects name; delete_data data) w.

Definition removeAll_try (key : option string) : M unit :=
  match key with
  | Some k =>
      if truthy_key key
      then checkSchema k ;;
           data ← realm_objects k;
           delete_data data
      else removeAll_each
  | None => removeAll_each
  end.

Definition removeAll (key : option string) : M unit :=
  try_catch (removeAll_try key)
    (fun error =>
       onUncaught error ;;
       throw (Js.new_Error_from error)).

Definition getAllKeys : M (list string) :=
  fun w => (Normal (schemaNames w), w).

Definition getModel (w : World) : Realm.instance := realm w.

(** A call of one of the methods that reach the engine, and the world it
    leaves behind whatever it returned. *)
Inductive Operation :=
| CreateItem (key : string) (value : Js.Object)
| UpdateItem (key : string) (value : Js.Object)
| DeleteItem (item : Realm.object)
| GetItems (key : string) (filter : option Filter)
| RemoveAll (key : option string).

Definition perform (op : Operation) (w : World) : World :=
  match op with
  | CreateItem key value => (createItem key value w).2
  | UpdateItem key value => (updateItem key value w).2
  | DeleteItem item => (deleteItem item w).2
  | GetItems key filter => (getItems key filter w).2
  | RemoveAll key => (removeAll key w).2
  end.

Definition perform_all (ops : list Operation) (w : World) : World :=
  fold_left (fun w op => perform op w) ops w.

(** *** Vocabulary of the statements *)

(** What [setup] fixes. *)
Definition statics (w : World)
    : list Realm.Schema * list string * gmap string (option string)
      * option (Js.Error -> App -> App) :=
  (schemas w, schemaNames w, primaryKeys w, errorCallback w).

Definition keeps_statics {A} (m : M A) : Prop :=
  forall w, statics (m w).2 = statics w.

(** The engine was not reached between [w] and [w']: no call was made and
    the instance is the same. *)
Definition engine_untouched (w w' : World) : Prop :=
  realm w' = realm w /\ calls w' = calls w.

(** A call was rejected for the unregistered name [key]: it threw the
    wrapped schema error, and the engine was not reached. *)
Definition rejected {A} (key : string) (w : World)
    (r : Completion A * World) : Prop :=
  r.1 = Throw (Js.new_Error_from (SchemaNotFoundError key)) /\
  engine_untouched w r.2.

(** The method is its [try] block under the common [catch] clause: a normal
    completion goes through; on a throw the sink is told of the error and a
    new error made from it is thrown. *)
Definition reports_and_rethrows {A} (block method : M A) : Prop :=
  forall w,
    method w =
    match block w with
    | (Normal a, w1) => (Normal a, w1)
    | (Throw error, w1) =>
        (Throw (Js.new_Error_from error), (onUncaught error w1).2)
    end.

(** [committed_each names r cs r']: starting from instance [r], each name in
    turn was looked up and its collection deleted in a write scope of its
    own that was committed (a name whose lookup gave a nullish value was
    passed over); [cs] are the calls made and [r'] the instance at the
    end. *)
Inductive committed_each
    : list string -> Realm.instance -> list Realm.Call -> Realm.instance
      -> Prop :=
| committed_nil r : committed_each [] r [] r
| committed_cons name names r d r1 cs r2 :
    Realm.objects name r = inr (Realm.Results d) ->
    Realm.delete_results d r = inr r1 ->
    committed_each names r1 cs r2 ->
    committed_each (name :: names) r
      ([Realm.Objects name; Realm.Begin; Realm.DeleteResults d; Realm.Commit]
       ++ cs)
      r2
| committed_skip name names r cs r2 :
    Realm.objects name r = inr Realm.Nullish ->
    committed_each names r cs r2 ->
    committed_each (name :: names) r ([Realm.Objects name] ++ cs) r2.

End RealmStorage.

Arguments World {E} App.
Arguments M {E} App A.
Arguments Normal {A} a.
Arguments Throw {A} error.

(** ** An in-memory engine *)

(** Modelled from the spec: the embedded engine is the [realm] package, an
    external collaborator that is not in the repository.  [MemRealm] is an
    in-memory stand-in that does what the specification says the engine
    does: records are kept per declared type; a create in update mode
    overwrites, in the record with the same primary key, the fields present
    in the value and leaves the others untouched; a plain create of an
    existing primary key is refused; deleting a collection removes the
    records it selects.  It supplies the concrete worlds on which the
    general statements are exercised. *)
Module MemRealm.

Record Store := mkStore {
  tables : gmap string (list Js.Object);
  keyOf : gmap string (option string);
  (** fault injection: the types whose deletion the store refuses, standing
      for an engine failure in the middle of a run *)
  refused : list string
}.

Definition with_table (t : string) (rows : list Js.Object) (st : Store)
    : Store :=
  mkStore (<[t := rows]> (tables st)) (keyOf st) (refused st).

Definition with_refused (ts : list string) (st : Store) : Store :=
  mkStore (tables st) (keyOf st) ts.

(** The rows of a type; none for an undeclared type. *)
Definition rows (t : string) (st : Store) : list Js.Object :=
  default [] (tables st !! t).

(** *** Queries: conjunctions of [field = literal] clauses *)

Definition cut (sep s : string) : option (string * string) :=
  match String.index 0 sep s with
  | Some i =>
      let j := (i + String.length sep)%nat in
      Some (String.substring 0 i s,
            String.substring j (String.length s - j)%nat s)
  | None => None
  end.

Fixpoint split (fuel : nat) (sep s : string) : list string :=
  match fuel with
  | O => [s]
  | S fuel' =>
      match cut sep s with
      | Some (a, b) => a :: split fuel' sep b
      | None => [s]
      end
  end.

Definition clauses (query : string) : list string :=
  split (String.length query) " AND " query.

Definition well_formed (query : string) : bool :=
  forallb (fun clause => bool_decide (is_Some (cut " = " clause)))
          (clauses query).

Definition clause_holds (row : Js.Object) (clause : string) : bool :=
  match cut " = " clause with
  | Some (field, literal) =>
      String.eqb (Js.ToString (Js.get row field)) literal
  | None => false
  end.

Definition satisfies (row : Js.Object) (query : string) : bool :=
  forallb (clause_holds row) (clauses query).

(** A collection is a live view: a type and the queries applied to it. *)
Definition View : Type := string * list string.

Definition selects (queries : list string) (row : Js.Object) : bool :=
  forallb (satisfies row) queries.

Definition snapshot (d : View) (st : Store) : list Js.Object :=
  filter (fun row => selects d.2 row = true) (rows d.1 st).

(** A stored record is handed out as its type and its fields. *)
Definition Handle : Type := string * Js.Object.

Definition no_such_type (t : string) : Js.Error :=
  Js.new_Error ("Object type '" +:+ t +:+ "' not found in schema.").

(** *** The operations *)

Definition construct (schemas : list Realm.Schema) (version : Z)
    (migration : Store -> Store) : Js.Error + Store :=
  inr (mkStore
         (fold_left (fun m s => <[Realm.name s := []]> m) schemas ∅)
         (fold_left (fun m s => <[Realm.name s := Realm.primaryKey s]> m)
                    schemas ∅)
         []).

Definition objects (t : string) (st : Store)
    : Js.Error + Realm.Lookup View :=
  match tables st !! t with
  | Some _ => inr (Realm.Results (t, []))
  | None => inl (no_such_type t)
  end.

Definition filtered (d : View) (query : string) (st : Store)
    : Js.Error + Realm.Lookup View :=
  if well_formed query
  then inr (Realm.Results (d.1, d.2 ++ [query]))
  else inl (Js.new_Error ("Invalid predicate: " +:+ query)).

(** Does [row] hold [k] in its primary-key field [pk]? *)
Definition has_key (pk : string) (k : Js.Value) (row : Js.Object) : bool :=
  bool_decide (Js.get row pk = k).

(** The rows that hold [k] in the field [pk]. *)
Definition with_key (pk : string) (k : Js.Value) (table : list Js.Object)
    : list Js.Object :=
  filter (fun row => has_key pk k row = true) table.

(** The fields of [value] written over [row]. *)
Definition merge (row value : Js.Object) : Js.Object :=
  fold_left (fun row '(field, x) => Js.set row field x) value row.

Definition create (t : string) (value : Js.Object) (update : bool)
    (st : Store) : Js.Error + (Handle * Store) :=
  match tables st !! t with
  | None => inl (no_such_type t)
  | Some table =>
      match keyOf st !! t with
      | Some (Some pk) =>
          let k := Js.get value pk in
          if bool_decide (k = Js.VUndefined)
          then inl (Js.new_Error
                      ("Missing value for property '" +:+ t +:+ "." +:+ pk
                       +:+ "'"))
          else
            match with_key pk k table with
            | [] => inr ((t, value), with_table t (table ++ [value]) st)
            | old :: _ =>
                if update
                then inr ((t, merge old value),
                          with_table t
                            (map (fun row => if has_key pk k row
                                             then merge row value else row)
                                 table)
                            st)
                else inl (Js.new_Error
                            ("Attempting to create an object of type '" +:+ t
                             +:+ "' with an existing primary key value."))
            end
      | _ => inr ((t, value), with_table t (table ++ [value]) st)
      end
  end.

(** Is [row] the record behind the handle with fields [fields]? *)
Definition same_record (pk : option string) (fields row : Js.Object)
    : bool :=
  match pk with
  | Some p => bool_decide (Js.get row p = Js.get fields p)
  | None => bool_decide (row = fields)
  end.

Definition refusal (t : string) : Js.Error :=
  Js.new_Error ("Cannot delete objects of type '" +:+ t +:+ "'.").

Definition delete_object (item : Handle) (st : Store) : Js.Error + Store :=
  match tables st !! item.1 with
  | None => inl (no_such_type item.1)
  | Some table =>
      let pk := default None (keyOf st !! item.1) in
      if bool_decide (item.1 ∈ refused st) then inl (refusal item.1)
      else if existsb (same_record pk item.2) table
      then inr (with_table item.1
                  (filter (fun row => same_record pk item.2 row = false) table)
                  st)
      else inl (Js.new_Error "Object is invalid: it has been deleted.")
  end.

Definition delete_results (d : View) (st : Store) : Js.Error + Store :=
  match tables st !! d.1 with
  | None => inl (no_such_type d.1)
  | Some table =>
      if bool_decide (d.1 ∈ refused st) then inl (refusal d.1)
      else inr (with_table d.1
                  (filter (fun row => selects d.2 row = false) table) st)
  end.

Definition engine : Realm.Engine :=
  {| Realm.instance := Store;
     Realm.results := View;
     Realm.object := Handle;
     Realm.construct := construct;
     Realm.objects := objects;
     Realm.filtered := filtered;
     Realm.create := create;
     Realm.delete_object := delete_object;
     Realm.delete_results := delete_results |}.

End MemRealm.

(** ** A small application on the in-memory engine *)

Module Fixture.

Definition schemas : list Realm.Schema :=
  [Realm.mkSchema "User" (Some "id"); Realm.mkSchema "Log" None].

(** The application counts the errors its callback was given. *)
Definition count_error (error : Js.Error) (n : nat) : nat := S n.

(** The world [setup] leaves with no error callback ... *)
Definition opened : Js.Error + @World MemRealm.engine nat :=
  setup (E := MemRealm.engine) schemas (Some 1) None None 0%nat.

(** ... and with one. *)
Definition opened_with_callback : Js.Error + @World MemRealm.engine nat :=
  setup (E := MemRealm.engine) schemas None None (Some count_error) 0%nat.

Definition store0 : MemRealm.Store :=
  MemRealm.mkStore
    (<["Log" := []]> (<["User" := []]> ∅))
    (<["Log" := None]> (<["User" := Some "id"]> ∅))
    [].

Definition world0 : @World MemRealm.engine nat :=
  @mkWorld MemRealm.engine nat schemas ["User"; "Log"]
    (<["Log" := None]> (<["User" := Some "id"]> ∅)) None store0 0%nat [] [].

Definition world0_with_callback : @World MemRealm.engine nat :=
  @mkWorld MemRealm.engine nat schemas ["User"; "Log"]
    (<["Log" := None]> (<["User" := Some "id"]> ∅)) (Some count_error)
    store0 0%nat [] [].

Definition ann : Js.Object :=
  [("id", Js.VNumber 1); ("name", Js.VString "Ann")].

Definition entry : Js.Object := [("text", Js.VString "started")].

(** One user and one log entry stored. *)
Definition populated : @World MemRealm.engine nat :=
  perform_all
    [CreateItem "User" ann; CreateItem "Log" entry]
    world0.

(** The same world on a store that has started to refuse deletions of
    log entries. *)
Definition failing : @World MemRealm.engine nat :=
  @with_realm MemRealm.engine nat
    (MemRealm.with_refused ["Log"] (realm populated)) populated.

Definition users : @Realm.results MemRealm.engine := ("User", []).

Definition logs : @Realm.results MemRealm.engine := ("Log", []).

(** The stored record of Ann. *)
Definition ann_record : @Realm.object MemRealm.engine := ("User", ann).

(** The users whose [id] is 1. *)
Definition user_1 : @Realm.results MemRealm.engine := ("User", ["id = 1"]).

Definition delete_users : list (@Realm.Call MemRealm.engine) :=
  [Realm.Objects "User"; Realm.Begin; Realm.DeleteResults users;
   Realm.Commit].

Definition delete_logs : list (@Realm.Call MemRealm.engine) :=
  [Realm.Objects "Log"; Realm.Begin; Realm.DeleteResults logs; Realm.Commit].

(** The store of [w] with the table of [t] emptied. *)
Definition emptied (t : string) (r : @Realm.instance MemRealm.engine)
    : @Realm.instance MemRealm.engine :=
  MemRealm.with_table t [] r.

End Fixture.

(** ** What a run shows *)

Section Observations.

Context `{E : Realm.Engine} {App : Type}.

(** A computation leaves the observation [f] of the world as it was. *)
Definition preserves {X A} (f : World App -> X) (m : M App A) : Prop :=
  forall w, f (m w).2 = f w.

(** What the error sink can show: the application state and the console. *)
Definition sink (w : World App) : App * list Js.ConsoleArg :=
  (app w, console w).

(** The error a completion throws, if it throws. *)
Definition thrown {A} (c : Completion A) : option Js.Error :=
  match c with
  | Normal _ => None
  | Throw error => Some error
  end.

(** The error a call of a method throws to its caller, if it throws. *)
Definition raised (op : Operation) (w : World App) : option Js.Error :=
  match op with
  | CreateItem key value => thrown (createItem key value w).1
  | UpdateItem key value => thrown (updateItem key value w).1
  | DeleteItem item => thrown (deleteItem item w).1
  | GetItems key filter => thrown (getItems key filter w).1
  | RemoveAll key => thrown (removeAll key w).1
  end.

(** The calls that go through every schema: [removeAll] without a truthy
    key. *)
Definition sweeps (op : Operation) : bool :=
  match op with
  | RemoveAll key => negb (truthy_key key)
  | _ => false
  end.

(** A call that only reads the instance. *)
Definition is_read (c : Realm.Call) : bool :=
  match c with
  | Realm.Objects _ | Realm.Filtered _ _ => true
  | _ => false
  end.

(** Write scopes in a record of calls.  [scoped inside cs] follows the
    calls from the state [inside] (is a scope open?) and gives the state at
    the end; it gives [None] when a scope is opened inside another, when a
    scope is closed that is not open, or when the instance is written
    outside a scope. *)
Fixpoint scoped (inside : bool) (cs : list Realm.Call) : option bool :=
  match cs with
  | [] => Some inside
  | c :: cs' =>
      match c with
      | Realm.Begin => if inside then None else scoped true cs'
      | Realm.Commit | Realm.Cancel =>
          if inside then scoped false cs' else None
      | Realm.Create _ _ _ | Realm.DeleteObject _ | Realm.DeleteResults _ =>
          if inside then scoped true cs' else None
      | Realm.Objects _ | Realm.Filtered _ _ => scoped inside cs'
      end
  end.

(** A computation only adds to the record of calls, and what it adds
    satisfies [P]. *)
Definition appends {A} (P : list Realm.Call -> Prop) (m : M App A) : Prop :=
  forall w, exists cs, calls (m w).2 = calls w ++ cs /\ P cs.

(** The calls keep the scope state [inside]. *)
Definition keeps_scope (inside : bool) (cs : list Realm.Call) : Prop :=
  scoped inside cs = Some inside.

(** The calls are reads. *)
Definition only_reads (cs : list Realm.Call) : Prop :=
  Forall (fun c => is_read c = true) cs.

End Observations.

(** * Properties *)

(** ** Strings and arrays *)

Lemma append_cons (c : Ascii.ascii) (s1 s2 : string) :
  String c s1 +:+ s2 = String c (s1 +:+ s2).
Proof. reflexivity. Qed.

Lemma append_empty_r (s : string) : s +:+ "" = s.
Proof.
  induction s as [|c s IH]; [done |]. by rewrite append_cons, IH.
Qed.

Lemma append_assoc (s1 s2 s3 : string) :
  (s1 +:+ s2) +:+ s3 = s1 +:+ (s2 +:+ s3).
Proof.
  induction s1 as [|c s1 IH]; [done |]. by rewrite !append_cons, IH.
Qed.

Lemma concat_empty_cons (x : string) (l : list string) :
  String.concat "" (x :: l) = x +:+ String.concat "" l.
Proof. destruct l; simpl; [by rewrite append_empty_r | done]. Qed.

(** Once the first element is in, [join] only appends separated
    elements. *)
Lemma join_loop_started (sep : string) (arr : list string) (R : string)
    (k : Z) :
  0 < k ->
  (fold_left
     (fun '(R, k) element =>
        (if (0 <? k) then R +:+ sep +:+ element else R +:+ element, k + 1))
     arr (R, k)).1
  = R +:+ String.concat "" (map (fun element => sep +:+ element) arr).
Proof.
  revert R k. induction arr as [|x arr IH]; intros R k Hk.
  - simpl. by rewrite append_empty_r.
  - cbn [fold_left map].
    destruct (0 <? k) eqn:Hlt; [| apply Z.ltb_ge in Hlt; lia].
    rewrite IH by lia.
    by rewrite concat_empty_cons, !append_assoc.
Qed.

Lemma concat_separated (sep x : string) (arr : list string) :
  String.concat sep (x :: arr)
  = x +:+ String.concat "" (map (fun element => sep +:+ element) arr).
Proof.
  revert x. induction arr as [|y arr IH]; intros x.
  - simpl. by rewrite append_empty_r.
  - change (String.concat sep (x :: y :: arr))
      with (x +:+ sep +:+ String.concat sep (y :: arr)).
    rewrite IH. cbn [map].
    by rewrite concat_empty_cons, !append_assoc.
Qed.

(** [join] is the library's [String.concat]. *)
Lemma join_concat (sep : string) (arr : list string) :
  Js.join sep arr = String.concat sep arr.
Proof.
  destruct arr as [|x arr]; [done |].
  unfold Js.join. simpl fold_left.
  rewrite join_loop_started by lia.
  by rewrite concat_separated.
Qed.

(** A loop of [push]es builds the mapped array. *)
Lemma push_loop {A B} (f : A -> B) (xs : list A) (acc : list B) :
  fold_left (fun query x => Js.push query (f x)) xs acc = acc ++ map f xs.
Proof.
  revert acc. induction xs as [|x xs IH]; intros acc; simpl.
  - by rewrite app_nil_r.
  - rewrite IH. unfold Js.push. by rewrite <- app_assoc.
Qed.

Lemma get_head_ne (k k' : string) (v : Js.Value) (o : Js.Object) :
  k' <> k -> Js.get ((k', v) :: o) k = Js.get o k.
Proof. intros Hne. simpl. by apply String.eqb_neq in Hne as ->. Qed.

Lemma get_head_eq (k : string) (v : Js.Value) (o : Js.Object) :
  Js.get ((k, v) :: o) k = v.
Proof. simpl. by rewrite String.eqb_refl. Qed.

(** With distinct keys, reading each key gives the value listed with it. *)
Lemma clauses_of_entries (o : Js.Object) (f : string -> Js.Value -> string) :
  NoDup (Js.keys o) ->
  map (fun key => f key (Js.get o key)) (Js.keys o)
  = map (fun '(key, v) => f key v) o.
Proof.
  induction o as [|[k v] o IH]; intros Hnd; [done |].
  unfold Js.keys in *. rewrite fmap_cons in *. simpl fst in *.
  apply NoDup_cons in Hnd as [Hk Hnd].
  rewrite !map_cons, get_head_eq. f_equal.
  rewrite <- IH by done.
  apply map_ext_in. intros k' Hin.
  rewrite get_head_ne; [done |].
  intros ->. apply Hk. by apply list_elem_of_In.
Qed.

Lemma indexOf_from_found (arr : list string) (x : string) (k : Z) :
  0 <= k -> x ∈ arr -> 0 <= Js.indexOf_from arr x k.
Proof.
  revert k. induction arr as [|y arr IH]; intros k Hk Hin.
  - by apply not_elem_of_nil in Hin.
  - simpl. destruct (String.eqb y x) eqn:Heq; [done |].
    apply String.eqb_neq in Heq.
    apply elem_of_cons in Hin as [-> | Hin]; [done |].
    apply IH; [lia | done].
Qed.

Lemma indexOf_from_missing (arr : list string) (x : string) (k : Z) :
  x ∉ arr -> Js.indexOf_from arr x k = -1.
Proof.
  revert k. induction arr as [|y arr IH]; intros k Hnin; [done |].
  simpl. apply not_elem_of_cons in Hnin as [Hne Hnin].
  assert (String.eqb y x = false) as -> by (apply String.eqb_neq; congruence).
  by apply IH.
Qed.

Lemma indexOf_negative (arr : list string) (x : string) :
  (Js.indexOf arr x <? 0) = bool_decide (x ∉ arr).
Proof.
  unfold Js.indexOf. destruct (decide (x ∈ arr)) as [Hin | Hnin].
  - rewrite bool_decide_eq_false_2 by (by intros ?).
    apply Z.ltb_ge. by apply indexOf_from_found.
  - rewrite bool_decide_eq_true_2 by done.
    by rewrite indexOf_from_missing.
Qed.

(** ** The filter translator *)

(** C3. [convertFilter] returns a string filter unchanged.  For a mapping it
    returns the clauses [field = value], one per key in the order of the
    keys, joined by " AND "; the value is converted to a string as it is, a
    string value without quotes.  With the keys distinct, as they are in an
    object, the clauses are those of the entries.  The mapping
    [{a: 1, b: "x"}] gives "a = 1 AND b = x". *)
Theorem convertFilter_clauses :
  (forall s, convertFilter (FString s) = s) /\
  (forall o,
     convertFilter (FObject o)
     = String.concat " AND "
         (map (fun key => key +:+ " = " +:+ Js.ToString (Js.get o key))
              (Js.keys o))) /\
  (forall o,
     NoDup (Js.keys o) ->
     convertFilter (FObject o)
     = String.concat " AND "
         (map (fun '(key, v) => key +:+ " = " +:+ Js.ToString v) o)) /\
  (forall key s,
     convertFilter (FObject [(key, Js.VString s)]) = key +:+ " = " +:+ s) /\
  convertFilter (FObject [("a", Js.VNumber 1); ("b", Js.VString "x")])
  = "a = 1 AND b = x".
Proof.
  assert (Hkeys : forall o,
     convertFilter (FObject o)
     = String.concat " AND "
         (map (fun key => key +:+ " = " +:+ Js.ToString (Js.get o key))
              (Js.keys o))).
  { intros o. unfold convertFilter.
    by rewrite join_concat, push_loop, app_nil_l. }
  split; [done |]. split; [done |]. split; [| split].
  - intros o Hnd. rewrite Hkeys.
    by rewrite (clauses_of_entries o
                  (fun key v => key +:+ " = " +:+ Js.ToString v)).
  - intros key s. rewrite Hkeys. unfold Js.keys. cbn [fmap list_fmap fst map].
    by rewrite get_head_eq.
  - by vm_compute.
Qed.

Lemma convertFilter_clauses_witness :
  NoDup (Js.keys [("id", Js.VNumber 7); ("name", Js.VString "Ann")]) /\
  convertFilter (FObject [("id", Js.VNumber 7); ("name", Js.VString "Ann")])
  = String.concat " AND "
      (map (fun '(key, v) => key +:+ " = " +:+ Js.ToString v)
           [("id", Js.VNumber 7); ("name", Js.VString "Ann")]).
Proof.
  assert (Hnd : NoDup (Js.keys [("id", Js.VNumber 7);
                                ("name", Js.VString "Ann")])).
  { apply (bool_decide_unpack _). by vm_compute. }
  split; [exact Hnd |].
  destruct convertFilter_clauses as (_ & _ & Hentries & _).
  exact (Hentries _ Hnd).
Defined.

(** C9. A filter object without keys is translated to the empty string. *)
Theorem convertFilter_empty_mapping : convertFilter (FObject []) = "".
Proof. reflexivity. Qed.

(** ** The static fields after [setup] *)

Section Statics.

Context `{E : Realm.Engine} {App : Type}.

Implicit Types (w : World App).

Lemma bind_run {A B} (m : M App A) (f : A -> M App B) w :
  (m ≫= f) w =
  match m w with
  | (Normal a, w1) => f a w1
  | (Throw error, w1) => (Throw error, w1)
  end.
Proof. reflexivity. Qed.

Lemma keeps_ret {A} (a : A) : keeps_statics (mret a : M App A).
Proof. by intros w. Qed.

Lemma keeps_throw {A} (error : Js.Error) :
  keeps_statics (throw error : M App A).
Proof. by intros w. Qed.

Lemma keeps_bind {A B} (m : M App A) (f : A -> M App B) :
  keeps_statics m -> (forall a, keeps_statics (f a)) ->
  keeps_statics (m ≫= f).
Proof.
  intros Hm Hf w. rewrite bind_run. specialize (Hm w).
  destruct (m w) as [[a | error] w1]; simpl in *; [| done].
  by rewrite Hf.
Qed.

Lemma keeps_try_catch {A} (block : M App A) (handler : Js.Error -> M App A) :
  keeps_statics block -> (forall error, keeps_statics (handler error)) ->
  keeps_statics (try_catch block handler).
Proof.
  intros Hb Hh w. unfold try_catch. specialize (Hb w).
  destruct (block w) as [[a | error] w1]; simpl in *; [done |].
  by rewrite Hh.
Qed.

Lemma keeps_for_of {A} (xs : list A) (body : A -> M App unit) :
  (forall x, keeps_statics (body x)) -> keeps_statics (for_of xs body).
Proof.
  intros Hbody. induction xs as [|x xs IH]; simpl.
  - apply keeps_ret.
  - apply keeps_bind; [apply Hbody | by intros _].
Qed.

Lemma keeps_engine_read {A} c (f : Realm.instance -> Js.Error + A) :
  keeps_statics (engine_read c f : M App A).
Proof. intros w. unfold engine_read. by destruct (f (realm w)). Qed.

Lemma keeps_engine_write {A} c
    (f : Realm.instance -> Js.Error + (A * Realm.instance)) :
  keeps_statics (engine_write c f : M App A).
Proof.
  intros w. unfold engine_write. by destruct (f (realm w)) as [? | [? ?]].
Qed.

Lemma keeps_engine_update c (f : Realm.instance -> Js.Error + Realm.instance) :
  keeps_statics (engine_update c f : M App unit).
Proof. intros w. unfold engine_update. by destruct (f (realm w)). Qed.

Lemma keeps_realm_write {A} (callback : M App A) :
  keeps_statics callback -> keeps_statics (realm_write callback).
Proof.
  intros Hc w. unfold realm_write.
  specialize (Hc (record Realm.Begin w)).
  by destruct (callback (record Realm.Begin w)) as [[a | error] w1].
Qed.

Lemma keeps_checkSchema key : keeps_statics (checkSchema key : M App unit).
Proof.
  intros w. unfold checkSchema.
  by destruct (Js.indexOf (schemaNames w) key <? 0).
Qed.

Lemma keeps_onUncaught error : keeps_statics (onUncaught error : M App unit).
Proof. intros w. unfold onUncaught. by destruct (errorCallback w). Qed.

Lemma keeps_results_filtered data query :
  keeps_statics (results_filtered data query : M App _).
Proof.
  destruct data; [apply keeps_engine_read | apply keeps_throw].
Qed.

Lemma keeps_delete_data data : keeps_statics (delete_data data : M App unit).
Proof.
  destruct data; [| apply keeps_ret].
  apply keeps_realm_write, keeps_engine_update.
Qed.

Lemma keeps_catch_clause {A} error :
  keeps_statics
    (onUncaught error ;; throw (Js.new_Error_from error) : M App A).
Proof.
  apply keeps_bind; [apply keeps_onUncaught | intros _; apply keeps_throw].
Qed.

Lemma keeps_removeAll_each : keeps_statics (removeAll_each : M App unit).
Proof.
  intros w. unfold removeAll_each.
  apply keeps_for_of. intros name.
  apply keeps_bind; [apply keeps_engine_read | apply keeps_delete_data].
Qed.

Lemma keeps_created key value update :
  keeps_statics
    (checkSchema key ;;
     item ← realm_write (realm_create key value update);
     mret item : M App Realm.object).
Proof.
  apply keeps_bind; [apply keeps_checkSchema | intros _].
  apply keeps_bind; [| intros item; apply keeps_ret].
  apply keeps_realm_write, keeps_engine_write.
Qed.

(** No method changes what [setup] fixed. *)
Lemma perform_statics (op : Operation) w : statics (perform op w) = statics w.
Proof.
  destruct op as [key value | key value | item | key filter | key]; simpl.
  - apply keeps_try_catch; [apply keeps_created | apply keeps_catch_clause].
  - apply keeps_try_catch; [apply keeps_created | apply keeps_catch_clause].
  - apply keeps_try_catch; [| apply keeps_catch_clause].
    apply keeps_realm_write, keeps_engine_update.
  - apply keeps_try_catch; [| apply keeps_catch_clause].
    apply keeps_bind; [apply keeps_checkSchema | intros _].
    apply keeps_bind.
    + unfold getItems_data.
      destruct filter as [f |]; [| apply keeps_engine_read].
      destruct (negb _); [apply keeps_engine_read |].
      apply keeps_bind; [apply keeps_engine_read |].
      intros all. apply keeps_results_filtered.
    + intros [d |]; apply keeps_ret.
  - apply keeps_try_catch; [| apply keeps_catch_clause].
    unfold removeAll_try.
    destruct key as [k |]; [| apply keeps_removeAll_each].
    destruct (truthy_key _); [| apply keeps_removeAll_each].
    apply keeps_bind; [apply keeps_checkSchema | intros _].
    apply keeps_bind; [apply keeps_engine_read | apply keeps_delete_data].
Qed.

Lemma perform_all_statics (ops : list Operation) w :
  statics (perform_all ops w) = statics w.
Proof.
  revert w. induction ops as [|op ops IH]; intros w; [done |].
  unfold perform_all in *. simpl. by rewrite IH, perform_statics.
Qed.

Lemma perform_all_schemaNames (ops : list Operation) w :
  schemaNames (perform_all ops w) = schemaNames w.
Proof.
  pose proof (perform_all_statics ops w) as H. unfold statics in H.
  congruence.
Qed.

Lemma setup_schemaNames schemas version migration errorCallback
    (app0 : App) w :
  setup schemas version migration errorCallback app0 = inr w ->
  schemaNames w = map Realm.name schemas.
Proof.
  unfold setup. destruct (Realm.construct _ _ _); [done |].
  by intros [= <-].
Qed.

Lemma checkSchema_known key w :
  key ∈ schemaNames w -> checkSchema key w = (Normal tt, w).
Proof.
  intros Hin. unfold checkSchema. rewrite indexOf_negative.
  by rewrite bool_decide_eq_false_2 by (by intros ?).
Qed.

Lemma checkSchema_unknown key w :
  key ∉ schemaNames w ->
  checkSchema key w = (Throw (SchemaNotFoundError key), w).
Proof.
  intros Hnin. unfold checkSchema. rewrite indexOf_negative.
  by rewrite bool_decide_eq_true_2.
Qed.

End Statics.

(** ** The schema registry *)

Lemma fixture_opened : Fixture.opened = inr Fixture.world0.
Proof. reflexivity. Qed.

Lemma fixture_opened_with_callback :
  Fixture.opened_with_callback = inr Fixture.world0_with_callback.
Proof. reflexivity. Qed.

(** C1. In every world reached from [setup] by calls of the methods,
    [checkSchema] of a name of the schema list passed to [setup] returns
    normally and leaves the world as it is; [checkSchema] of any other name
    throws, also without a change, the error whose message names it. *)
Theorem checkSchema_registered `{E : Realm.Engine} {App : Type}
    schemas version migration errorCallback (app0 : App) (w0 : World App)
    (ops : list Operation) :
  setup schemas version migration errorCallback app0 = inr w0 ->
  let w := perform_all ops w0 in
  (forall S,
     S ∈ map Realm.name schemas -> checkSchema S w = (Normal tt, w)) /\
  (forall U, U ∉ map Realm.name schemas ->
     checkSchema U w = (Throw (SchemaNotFoundError U), w) /\
     Js.message (SchemaNotFoundError U)
     = "Schema for " +:+ U +:+ " it's not defined.").
Proof.
  intros Hsetup w.
  assert (Hnames : schemaNames w = map Realm.name schemas).
  { unfold w. rewrite perform_all_schemaNames.
    by apply setup_schemaNames in Hsetup. }
  split.
  - intros S HS. apply checkSchema_known. by rewrite Hnames.
  - intros U HU. split; [| done].
    apply checkSchema_unknown. by rewrite Hnames.
Qed.

Lemma checkSchema_registered_witness :
  let w := perform_all [CreateItem "User" Fixture.ann] Fixture.world0 in
  checkSchema "User" w = (Normal tt, w) /\
  checkSchema "Order" w = (Throw (SchemaNotFoundError "Order"), w).
Proof.
  intros w.
  destruct (checkSchema_registered (E := MemRealm.engine)
              Fixture.schemas (Some 1) None None 0%nat Fixture.world0
              [CreateItem "User" Fixture.ann] fixture_opened)
    as [Hknown Hunknown].
  split.
  - apply Hknown. apply (bool_decide_unpack _). by vm_compute.
  - apply Hunknown. apply (bool_decide_unpack _). by vm_compute.
Defined.

(** C8. After [setup], and after any calls of [createItem], [updateItem],
    [deleteItem], [getItems] and [removeAll], [getAllKeys] returns the names
    of the schema definitions passed to [setup], in their order, and
    changes nothing. *)
Theorem getAllKeys_registration_order `{E : Realm.Engine} {App : Type}
    schemas version migration errorCallback (app0 : App) (w0 : World App)
    (ops : list Operation) :
  setup schemas version migration errorCallback app0 = inr w0 ->
  getAllKeys (perform_all ops w0)
  = (Normal (map Realm.name schemas), perform_all ops w0).
Proof.
  intros Hsetup. unfold getAllKeys.
  rewrite perform_all_schemaNames.
  by rewrite (setup_schemaNames _ _ _ _ _ _ Hsetup).
Qed.

Lemma getAllKeys_registration_order_witness :
  getAllKeys
    (perform_all
       [CreateItem "User" Fixture.ann; RemoveAll None;
        GetItems "Log" None; UpdateItem "User" Fixture.ann]
       Fixture.world0)
  = (Normal ["User"; "Log"],
     perform_all
       [CreateItem "User" Fixture.ann; RemoveAll None;
        GetItems "Log" None; UpdateItem "User" Fixture.ann]
       Fixture.world0).
Proof.
  exact (getAllKeys_registration_order (E := MemRealm.engine)
           Fixture.schemas (Some 1) None None 0%nat Fixture.world0
           [CreateItem "User" Fixture.ann; RemoveAll None;
            GetItems "Log" None; UpdateItem "User" Fixture.ann]
           fixture_opened).
Defined.

(** ** The error sink *)

Section ErrorSink.

Context `{E : Realm.Engine} {App : Type}.

Implicit Types (w : World App).

Lemma try_catch_rethrows {A} (block : M App A) :
  reports_and_rethrows block
    (try_catch block
       (fun error => onUncaught error ;; throw (Js.new_Error_from error))).
Proof.
  intros w. unfold try_catch.
  destruct (block w) as [[a | error] w1]; [done |].
  rewrite bind_run. unfold onUncaught.
  by destruct (errorCallback w1).
Qed.

Lemma onUncaught_untouched error w :
  engine_untouched w (onUncaught error w).2.
Proof. unfold onUncaught. by destruct (errorCallback w). Qed.

Lemma new_Error_from_message error :
  exists prefix,
    Js.message (Js.new_Error_from error) = prefix +:+ Js.message error.
Proof.
  unfold Js.new_Error_from, Js.Error_toString. simpl.
  destruct (String.eqb (Js.name error) ""); [by exists "" |].
  destruct (String.eqb (Js.message error) "") eqn:Hm.
  - apply String.eqb_eq in Hm. rewrite Hm.
    exists (Js.name error). by rewrite append_empty_r.
  - exists (Js.name error +:+ ": "). by rewrite append_assoc.
Qed.

End ErrorSink.

(** C2. Each of [createItem], [updateItem], [deleteItem], [getItems] and
    [removeAll] is its [try] block under the same [catch] clause: whatever
    the block throws, a schema error or an engine exception, the sink is
    told first and then a new error is thrown.  The sink is the error
    callback when one was given, and otherwise two lines on the console.
    The new error is a plain [Error] whatever the class of the original;
    its message is the original converted to a string, which ends with the
    original message. *)
Theorem failures_reported_then_rethrown `{E : Realm.Engine} {App : Type} :
  (forall key value,
     reports_and_rethrows (createItem_try key value)
       (createItem key value : M App _)) /\
  (forall key value,
     reports_and_rethrows (updateItem_try key value)
       (updateItem key value : M App _)) /\
  (forall item,
     reports_and_rethrows (deleteItem_try item) (deleteItem item : M App _)) /\
  (forall key filter,
     reports_and_rethrows (getItems_try key filter)
       (getItems key filter : M App _)) /\
  (forall key,
     reports_and_rethrows (removeAll_try key) (removeAll key : M App _)) /\
  (forall error (w : World App),
     onUncaught error w =
     (Normal tt,
      match errorCallback w with
      | Some callback => with_app (callback error (app w)) w
      | None =>
          with_console
            (console w ++
             [Js.LogString
                "-------- ERROR CALLBACK NOT DEFINED ON STORAGE CLASS --------";
              Js.LogError error])
            w
      end)) /\
  (forall error,
     Js.name (Js.new_Error_from error) = "Error" /\
     Js.message (Js.new_Error_from error) = Js.Error_toString error /\
     exists prefix,
       Js.message (Js.new_Error_from error) = prefix +:+ Js.message error).
Proof.
  repeat split; try (intros; apply try_catch_rethrows).
  - intros error w. unfold onUncaught. by destruct (errorCallback w).
  - apply new_Error_from_message.
Qed.

(** ** Rejection of unregistered names *)

Section Rejection.

Context `{E : Realm.Engine} {App : Type}.

Implicit Types (w : World App).

Lemma rejected_by_block {A} (block method : M App A) key w :
  reports_and_rethrows block method ->
  block w = (Throw (SchemaNotFoundError key), w) ->
  rejected key w (method w).
Proof.
  intros Hm Hb. rewrite Hm, Hb. split; [done |].
  apply onUncaught_untouched.
Qed.

Lemma checked_first_unknown {A} (rest : M App A) key w :
  key ∉ schemaNames w ->
  (checkSchema key ;; rest) w = (Throw (SchemaNotFoundError key), w).
Proof. intros Hnin. by rewrite bind_run, checkSchema_unknown. Qed.

Lemma truthy_string_ne (s : string) : s <> "" -> Js.truthy_string s = true.
Proof.
  intros Hne. unfold Js.truthy_string.
  by apply String.eqb_neq in Hne as ->.
Qed.

End Rejection.

(** C7. A name outside the registered names is rejected before the engine
    is reached: [createItem], [updateItem], [getItems], and [removeAll]
    given a name (a non-empty string: the empty string is falsy and counts
    as no name) throw the wrapped schema error, the engine instance is the
    same and no engine call was made. *)
Theorem unregistered_rejected_before_engine `{E : Realm.Engine} {App : Type}
    (w : World App) (key : string) :
  key ∉ schemaNames w ->
  (forall value, rejected key w (createItem key value w)) /\
  (forall value, rejected key w (updateItem key value w)) /\
  (forall filter, rejected key w (getItems key filter w)) /\
  (key <> "" -> rejected key w (removeAll (Some key) w)).
Proof.
  intros Hnin.
  split; [| split; [| split]].
  - intros value. eapply rejected_by_block; [apply try_catch_rethrows |].
    by apply checked_first_unknown.
  - intros value. eapply rejected_by_block; [apply try_catch_rethrows |].
    by apply checked_first_unknown.
  - intros filter. eapply rejected_by_block; [apply try_catch_rethrows |].
    by apply checked_first_unknown.
  - intros Hne. eapply rejected_by_block; [apply try_catch_rethrows |].
    unfold removeAll_try, truthy_key. rewrite truthy_string_ne by done.
    by apply checked_first_unknown.
Qed.

Lemma unregistered_rejected_before_engine_witness :
  ("Order" ∉ schemaNames Fixture.populated) /\
  rejected "Order" Fixture.populated
    (createItem "Order" Fixture.ann Fixture.populated) /\
  rejected "Order" Fixture.populated
    (getItems "Order" (Some (FString "id = 1")) Fixture.populated) /\
  rejected "Order" Fixture.populated
    (removeAll (Some "Order") Fixture.populated).
Proof.
  assert (Hnin : "Order" ∉ schemaNames Fixture.populated).
  { apply (bool_decide_unpack _). by vm_compute. }
  destruct (unregistered_rejected_before_engine Fixture.populated "Order"
              Hnin) as (Hcreate & _ & Hget & Hremove).
  split; [exact Hnin |].
  split; [apply Hcreate |].
  split; [apply Hget |].
  apply Hremove. discriminate.
Defined.

(** ** Deleting everything *)

Section RemoveAll.

Context `{E : Realm.Engine} {App : Type}.

Implicit Types (w : World App).

Lemma world_unchanged w :
  with_calls (calls w ++ []) (with_realm (realm w) w) = w.
Proof.
  destruct w. unfold with_calls, with_realm. simpl. by rewrite app_nil_r.
Qed.

(** One type whose deletion the engine accepts. *)
Lemma step_commits name d r1 w :
  Realm.objects name (realm w) = inr (Realm.Results d) ->
  Realm.delete_results d (realm w) = inr r1 ->
  (data ← realm_objects name; delete_data data) w
  = (Normal tt,
     with_calls
       (calls w ++
        [Realm.Objects name; Realm.Begin; Realm.DeleteResults d;
         Realm.Commit])
       (with_realm r1 w)).
Proof.
  intros Hobjects Hdelete. rewrite bind_run.
  unfold realm_objects, engine_read. rewrite Hobjects.
  unfold delete_data, realm_write, realm_delete_results, engine_update.
  simpl. rewrite Hdelete.
  destruct w. unfold record, with_calls, with_realm. simpl.
  by rewrite <- !app_assoc.
Qed.

(** One type whose deletion the engine refuses: the scope is cancelled and
    the instance is the one before the scope. *)
Lemma step_cancels name d error w :
  Realm.objects name (realm w) = inr (Realm.Results d) ->
  Realm.delete_results d (realm w) = inl error ->
  (data ← realm_objects name; delete_data data) w
  = (Throw error,
     with_calls
       (calls w ++
        [Realm.Objects name; Realm.Begin; Realm.DeleteResults d;
         Realm.Cancel])
       w).
Proof.
  intros Hobjects Hdelete. rewrite bind_run.
  unfold realm_objects, engine_read. rewrite Hobjects.
  unfold delete_data, realm_write, realm_delete_results, engine_update.
  simpl. rewrite Hdelete.
  destruct w. unfold record, with_calls, with_realm. simpl.
  by rewrite <- !app_assoc.
Qed.

(** One type whose lookup gives nothing to delete. *)
Lemma step_skips name w :
  Realm.objects name (realm w) = inr Realm.Nullish ->
  (data ← realm_objects name; delete_data data) w
  = (Normal tt, with_calls (calls w ++ [Realm.Objects name]) w).
Proof.
  intros Hobjects. rewrite bind_run.
  unfold realm_objects, engine_read. by rewrite Hobjects.
Qed.

Lemma each_commits names w cs r' :
  committed_each names (realm w) cs r' ->
  for_of names (fun name => data ← realm_objects name; delete_data data) w
  = (Normal tt, with_calls (calls w ++ cs) (with_realm r' w)).
Proof.
  intros Hall. remember (realm w) as r eqn:Hr.
  revert w Hr.
  induction Hall as [r | name names r d r1 cs r2 Ho Hd Hall IH
                       | name names r cs r2 Ho Hall IH];
    intros w ->.
  - simpl. by rewrite world_unchanged.
  - cbn [for_of]. rewrite bind_run, (step_commits name d r1) by done.
    rewrite IH by done.
    destruct w. unfold with_calls, with_realm. simpl.
    by rewrite <- !app_assoc.
  - cbn [for_of]. rewrite bind_run, step_skips by done.
    rewrite IH by done.
    destruct w. unfold with_calls, with_realm. simpl.
    by rewrite <- !app_assoc.
Qed.

Lemma each_stops_at_failure pre name post w cs r1 d error :
  committed_each pre (realm w) cs r1 ->
  Realm.objects name r1 = inr (Realm.Results d) ->
  Realm.delete_results d r1 = inl error ->
  for_of (pre ++ name :: post)
    (fun name => data ← realm_objects name; delete_data data) w
  = (Throw error,
     with_calls
       (calls w ++ cs ++
        [Realm.Objects name; Realm.Begin; Realm.DeleteResults d;
         Realm.Cancel])
       (with_realm r1 w)).
Proof.
  intros Hpre. remember (realm w) as r eqn:Hr.
  revert w Hr.
  induction Hpre as [r | n names r d0 r0 cs r2 Ho Hd Hpre IH
                       | n names r cs r2 Ho Hpre IH];
    intros w -> Hobjects Hdelete.
  - rewrite app_nil_l. cbn [for_of]. rewrite bind_run.
    rewrite (step_cancels name d error) by done.
    destruct w. unfold with_calls, with_realm. by simpl.
  - rewrite <- app_comm_cons. cbn [for_of]. rewrite bind_run.
    rewrite (step_commits n d0 r0) by done.
    rewrite IH by done.
    destruct w. unfold with_calls, with_realm. simpl.
    by rewrite <- !app_assoc.
  - rewrite <- app_comm_cons. cbn [for_of]. rewrite bind_run.
    rewrite step_skips by done.
    rewrite IH by done.
    destruct w. unfold with_calls, with_realm. simpl.
    by rewrite <- !app_assoc.
Qed.

Lemma removeAll_without_key w :
  removeAll None w =
  match removeAll_each w with
  | (Normal a, w1) => (Normal a, w1)
  | (Throw error, w1) =>
      (Throw (Js.new_Error_from error), (onUncaught error w1).2)
  end.
Proof. apply (try_catch_rethrows (removeAll_try None)). Qed.

Lemma removeAll_empty_key w : removeAll (Some "") w = removeAll None w.
Proof. reflexivity. Qed.

Lemma removeAll_everything w cs r' :
  committed_each (schemaNames w) (realm w) cs r' ->
  removeAll None w = (Normal tt, with_calls (calls w ++ cs) (with_realm r' w)).
Proof.
  intros Hall. rewrite removeAll_without_key. unfold removeAll_each.
  by rewrite (each_commits _ _ cs r').
Qed.

End RemoveAll.

(** C5. [removeAll] without an argument takes the registered names in
    order and deletes each type's collection in a write scope of its own.
    When the engine accepts every deletion, the calls are one lookup and
    one committed scope per name (no scope for a name whose lookup is
    nullish).  When the deletion for one type fails
    after those of the types before it were committed, the call throws the
    wrapped error and the instance is the one those commits left: what was
    deleted stays deleted. *)
Theorem removeAll_scope_per_type `{E : Realm.Engine} {App : Type}
    (w : World App) :
  (forall cs r',
     committed_each (schemaNames w) (realm w) cs r' ->
     removeAll None w
     = (Normal tt, with_calls (calls w ++ cs) (with_realm r' w))) /\
  (forall pre name post cs r1 d error,
     schemaNames w = pre ++ name :: post ->
     committed_each pre (realm w) cs r1 ->
     Realm.objects name r1 = inr (Realm.Results d) ->
     Realm.delete_results d r1 = inl error ->
     let stopped :=
       with_calls
         (calls w ++ cs ++
          [Realm.Objects name; Realm.Begin; Realm.DeleteResults d;
           Realm.Cancel])
         (with_realm r1 w) in
     removeAll None w
     = (Throw (Js.new_Error_from error), (onUncaught error stopped).2) /\
     realm (removeAll None w).2 = r1).
Proof.
  split; [apply removeAll_everything |].
  intros pre name post cs r1 d error Hnames Hpre Hobjects Hdelete stopped.
  assert (Hrun : removeAll None w
                 = (Throw (Js.new_Error_from error),
                    (onUncaught error stopped).2)).
  { rewrite removeAll_without_key. unfold removeAll_each. rewrite Hnames.
    by rewrite (each_stops_at_failure pre name post w cs r1 d error). }
  split; [exact Hrun |].
  rewrite Hrun. simpl.
  destruct (onUncaught_untouched error stopped) as [-> _].
  by destruct w.
Qed.

Lemma removeAll_scope_per_type_witness :
  let w' := (removeAll None Fixture.failing).2 in
  MemRealm.rows "User" (realm Fixture.failing) = [Fixture.ann] /\
  (removeAll None Fixture.failing).1
  = Throw (Js.new_Error_from (MemRealm.refusal "Log")) /\
  MemRealm.rows "User" (realm w') = [] /\
  MemRealm.rows "Log" (realm w') = [Fixture.entry].
Proof.
  intros w'.
  destruct (removeAll_scope_per_type Fixture.failing) as [_ Hfail].
  destruct (Hfail ["User"] "Log" [] (Fixture.delete_users ++ [])
              (Fixture.emptied "User" (realm Fixture.failing))
              Fixture.logs (MemRealm.refusal "Log") eq_refl)
    as [Hrun Hrealm].
  - apply (committed_cons "User" [] (realm Fixture.failing) Fixture.users
             (Fixture.emptied "User" (realm Fixture.failing)) []).
    + by vm_compute.
    + by vm_compute.
    + apply committed_nil.
  - by vm_compute.
  - by vm_compute.
  - split; [by vm_compute |].
    split; [by rewrite Hrun |].
    unfold w'. rewrite Hrealm. split; by vm_compute.
Defined.

(** C10. [removeAll] given the empty string, which is falsy, does what
    [removeAll] without an argument does: the argument is not checked
    against the registered names, and when the engine accepts every
    deletion the call returns normally with the collection of every
    registered type deleted in a committed scope. *)
Theorem removeAll_falsy_key `{E : Realm.Engine} {App : Type}
    (w : World App) :
  removeAll (Some "") w = removeAll None w /\
  removeAll_try (Some "") w = removeAll_each w /\
  (forall cs r',
     committed_each (schemaNames w) (realm w) cs r' ->
     removeAll (Some "") w
     = (Normal tt, with_calls (calls w ++ cs) (with_realm r' w))).
Proof.
  split; [done |]. split; [done |].
  intros cs r' Hall. rewrite removeAll_empty_key.
  by apply removeAll_everything.
Qed.

Lemma removeAll_falsy_key_witness :
  let w' := (removeAll (Some "") Fixture.populated).2 in
  ("" ∉ schemaNames Fixture.populated) /\
  MemRealm.rows "User" (realm Fixture.populated) = [Fixture.ann] /\
  MemRealm.rows "Log" (realm Fixture.populated) = [Fixture.entry] /\
  (removeAll (Some "") Fixture.populated).1 = Normal tt /\
  MemRealm.rows "User" (realm w') = [] /\
  MemRealm.rows "Log" (realm w') = [].
Proof.
  intros w'.
  destruct (removeAll_falsy_key Fixture.populated) as (_ & _ & Hall).
  assert (Hrun := Hall
    (Fixture.delete_users ++ Fixture.delete_logs ++ [])
    (Fixture.emptied "Log" (Fixture.emptied "User" (realm Fixture.populated)))).
  assert (Hcommitted :
    committed_each (schemaNames Fixture.populated) (realm Fixture.populated)
      (Fixture.delete_users ++ Fixture.delete_logs ++ [])
      (Fixture.emptied "Log"
         (Fixture.emptied "User" (realm Fixture.populated)))).
  { apply (committed_cons "User" ["Log"] (realm Fixture.populated)
             Fixture.users
             (Fixture.emptied "User" (realm Fixture.populated))).
    - by vm_compute.
    - by vm_compute.
    - apply (committed_cons "Log" [] _ Fixture.logs
               (Fixture.emptied "Log"
                  (Fixture.emptied "User" (realm Fixture.populated)))).
      + by vm_compute.
      + by vm_compute.
      + apply committed_nil. }
  specialize (Hrun Hcommitted).
  split; [apply (bool_decide_unpack _); by vm_compute |].
  split; [by vm_compute |]. split; [by vm_compute |].
  split; [by rewrite Hrun |].
  unfold w'. rewrite Hrun. split; by vm_compute.
Defined.

(** ** Queries *)

Section GetItems.

Context `{E : Realm.Engine} {App : Type}.

Implicit Types (w : World App).

(** For a registered name the result follows what was assigned to
    [data]. *)
Lemma getItems_known key filter w :
  key ∈ schemaNames w ->
  getItems key filter w =
  match getItems_data key filter w with
  | (Normal (Realm.Results d), w1) => (Normal (Some d), w1)
  | (Normal Realm.Nullish, w1) => (Normal None, w1)
  | (Throw error, w1) =>
      (Throw (Js.new_Error_from error), (onUncaught error w1).2)
  end.
Proof.
  intros Hin. unfold getItems.
  rewrite (try_catch_rethrows (getItems_try key filter)).
  unfold getItems_try. rewrite bind_run, checkSchema_known by done.
  rewrite bind_run.
  by destruct (getItems_data key filter w) as [[[d |] | error] w1].
Qed.

Lemma getItems_data_unfiltered key filter w :
  truthy_filter filter = false ->
  getItems_data key filter w =
  match Realm.objects key (realm w) with
  | inl error => (Throw error, record (Realm.Objects key) w)
  | inr data => (Normal data, record (Realm.Objects key) w)
  end.
Proof.
  intros Hfalsy. unfold getItems_data.
  destruct filter as [f |]; [rewrite Hfalsy |]; done.
Qed.

Lemma getItems_data_filtered key f w :
  truthy_filter (Some f) = true ->
  getItems_data key (Some f) w =
  match Realm.objects key (realm w) with
  | inl error => (Throw error, record (Realm.Objects key) w)
  | inr Realm.Nullish =>
      (Throw (Js.TypeError_member "filtered"), record (Realm.Objects key) w)
  | inr (Realm.Results all) =>
      let w1 :=
        record (Realm.Filtered all (convertFilter f))
          (record (Realm.Objects key) w) in
      match Realm.filtered all (convertFilter f) (realm w) with
      | inl error => (Throw error, w1)
      | inr data => (Normal data, w1)
      end
  end.
Proof.
  intros Htruthy. unfold getItems_data. rewrite Htruthy.
  cbn [negb]. cbv iota.
  rewrite bind_run. unfold realm_objects, engine_read.
  destruct (Realm.objects key (realm w)) as [error | [all |]]; [done | | done].
  unfold results_filtered, engine_read. simpl.
  by destruct (Realm.filtered all (convertFilter f) (realm w)).
Qed.

End GetItems.

(** C6. For a registered name: without a filter (none given, or the empty
    string, which is falsy) [getItems] returns the collection the engine
    gives for the type; with a filter it returns what the engine's
    [filtered] gives for that collection and the query [convertFilter]
    makes of the filter; and it returns [null] exactly when the lookup
    itself ended in a nullish value. *)
Theorem getItems_lookup `{E : Realm.Engine} {App : Type}
    (w : World App) (key : string) :
  key ∈ schemaNames w ->
  (forall filter d,
     truthy_filter filter = false ->
     Realm.objects key (realm w) = inr (Realm.Results d) ->
     getItems key filter w = (Normal (Some d), record (Realm.Objects key) w))
  /\
  (forall f all d,
     truthy_filter (Some f) = true ->
     Realm.objects key (realm w) = inr (Realm.Results all) ->
     Realm.filtered all (convertFilter f) (realm w) = inr (Realm.Results d) ->
     getItems key (Some f) w
     = (Normal (Some d),
        record (Realm.Filtered all (convertFilter f))
          (record (Realm.Objects key) w)))
  /\
  (forall filter,
     (getItems key filter w).1 = Normal None <->
     (truthy_filter filter = false /\
      Realm.objects key (realm w) = inr Realm.Nullish) \/
     (exists f all,
        filter = Some f /\ truthy_filter filter = true /\
        Realm.objects key (realm w) = inr (Realm.Results all) /\
        Realm.filtered all (convertFilter f) (realm w) = inr Realm.Nullish)).
Proof.
  intros Hin. split; [| split].
  - intros filter d Hfalsy Hobjects.
    rewrite getItems_known, getItems_data_unfiltered by done.
    by rewrite Hobjects.
  - intros f all d Htruthy Hobjects Hfiltered.
    rewrite getItems_known, getItems_data_filtered by done.
    rewrite Hobjects. simpl. by rewrite Hfiltered.
  - intros filter. rewrite getItems_known by done.
    destruct (truthy_filter filter) eqn:Htruthy.
    + destruct filter as [f |]; [| done].
      rewrite getItems_data_filtered by done.
      destruct (Realm.objects key (realm w)) as [error | [all |]] eqn:Ho.
      * split; [done |]. intros [[? _] | (? & ? & _ & _ & ? & _)]; done.
      * simpl.
        destruct (Realm.filtered all (convertFilter f) (realm w))
          as [error | [d |]] eqn:Hf.
        -- split; [done |].
           intros [[? _] | (f' & all' & [= <-] & _ & [= <-] & Hf')]; [done |].
           by rewrite Hf in Hf'.
        -- split; [done |].
           intros [[? _] | (f' & all' & [= <-] & _ & [= <-] & Hf')]; [done |].
           by rewrite Hf in Hf'.
        -- split; [| done]. intros _. right. by exists f, all.
      * split; [done |]. intros [[? _] | (? & ? & _ & _ & ? & _)]; done.
    + rewrite getItems_data_unfiltered by done.
      destruct (Realm.objects key (realm w)) as [error | [d |]] eqn:Ho.
      * split; [done |]. intros [[_ ?] | (? & ? & _ & ? & _)]; done.
      * split; [done |]. intros [[_ ?] | (? & ? & _ & ? & _)]; done.
      * split; [| done]. intros _. by left.
Qed.

Lemma getItems_lookup_witness :
  ("User" ∈ schemaNames Fixture.populated) /\
  getItems "User" None Fixture.populated
  = (Normal (Some Fixture.users),
     record (Realm.Objects "User") Fixture.populated) /\
  getItems "User" (Some (FString "")) Fixture.populated
  = (Normal (Some Fixture.users),
     record (Realm.Objects "User") Fixture.populated) /\
  getItems "User" (Some (FObject [("id", Js.VNumber 1)])) Fixture.populated
  = (Normal (Some Fixture.user_1),
     record (Realm.Filtered Fixture.users "id = 1")
       (record (Realm.Objects "User") Fixture.populated)) /\
  MemRealm.snapshot Fixture.user_1 (realm Fixture.populated) = [Fixture.ann].
Proof.
  assert (Hin : "User" ∈ schemaNames Fixture.populated).
  { apply (bool_decide_unpack _). by vm_compute. }
  destruct (getItems_lookup Fixture.populated "User" Hin)
    as (Hall & Hfiltered & _).
  split; [exact Hin |].
  split; [apply Hall; by vm_compute |].
  split; [apply Hall; by vm_compute |].
  split; [| by vm_compute].
  apply (Hfiltered (FObject [("id", Js.VNumber 1)]) Fixture.users
           Fixture.user_1); by vm_compute.
Defined.

(** ** Updates *)

Section UpdateItem.

Context `{E : Realm.Engine} {App : Type}.

Implicit Types (w : World App).

(** For a registered name [updateItem] is one write scope around one
    create in update mode. *)
Lemma updateItem_known key value w :
  key ∈ schemaNames w ->
  updateItem key value w =
  match Realm.create key value true (realm w) with
  | inr (item, r') =>
      (Normal item,
       with_calls
         (calls w ++
          [Realm.Begin; Realm.Create key value true; Realm.Commit])
         (with_realm r' w))
  | inl error =>
      (Throw (Js.new_Error_from error),
       (onUncaught error
          (with_calls
             (calls w ++
              [Realm.Begin; Realm.Create key value true; Realm.Cancel])
             w)).2)
  end.
Proof.
  intros Hin. unfold updateItem.
  rewrite (try_catch_rethrows (updateItem_try key value)).
  unfold updateItem_try. rewrite bind_run, checkSchema_known by done.
  rewrite bind_run.
  unfold realm_write, realm_create, engine_write. simpl.
  destruct (Realm.create key value true (realm w)) as [error | [item r']].
  - destruct w. unfold record, with_calls, with_realm. simpl.
    by rewrite <- !app_assoc.
  - destruct w. unfold record, with_calls, with_realm. simpl.
    by rewrite <- !app_assoc.
Qed.

End UpdateItem.

(** *** Records of the in-memory engine *)

Lemma get_set_eq (o : Js.Object) (k : string) (v : Js.Value) :
  Js.get (Js.set o k v) k = v.
Proof.
  induction o as [|[k' v'] o IH]; simpl.
  - by rewrite String.eqb_refl.
  - destruct (String.eqb k' k) eqn:Heq; simpl; by rewrite Heq.
Qed.

Lemma get_set_ne (o : Js.Object) (k k' : string) (v : Js.Value) :
  k <> k' -> Js.get (Js.set o k v) k' = Js.get o k'.
Proof.
  intros Hne. induction o as [|[k0 v0] o IH]; simpl.
  - by apply String.eqb_neq in Hne as ->.
  - destruct (String.eqb k0 k) eqn:Heq; simpl.
    + apply String.eqb_eq in Heq as ->.
      by apply String.eqb_neq in Hne as ->.
    + by rewrite IH.
Qed.

Lemma get_absent (o : Js.Object) (k : string) :
  k ∉ Js.keys o -> Js.get o k = Js.VUndefined.
Proof.
  induction o as [|[k' v'] o IH]; intros Hnin; [done |].
  unfold Js.keys in *. rewrite fmap_cons in Hnin. simpl in Hnin.
  apply not_elem_of_cons in Hnin as [Hne Hnin].
  rewrite get_head_ne by congruence. by apply IH.
Qed.

(** A field of the merged record: the value's when the value has the
    field, the old one otherwise. *)
Lemma get_merge (row value : Js.Object) (field : string) :
  NoDup (Js.keys value) ->
  Js.get (MemRealm.merge row value) field
  = if bool_decide (field ∈ Js.keys value) then Js.get value field
    else Js.get row field.
Proof.
  unfold MemRealm.merge, Js.keys.
  revert row. induction value as [|[k x] value IH]; intros row Hnd; [done |].
  rewrite fmap_cons in *. simpl fst in *.
  apply NoDup_cons in Hnd as [Hk Hnd].
  cbn [fold_left]. rewrite IH by done.
  destruct (decide (field ∈ value.*1)) as [Hin | Hnin].
  - rewrite !bool_decide_eq_true_2; [| by right | done].
    rewrite get_head_ne; [done |]. by intros ->.
  - rewrite (bool_decide_eq_false_2 (field ∈ value.*1)) by done.
    destruct (decide (k = field)) as [-> | Hne].
    + rewrite bool_decide_eq_true_2 by left.
      by rewrite get_set_eq, get_head_eq.
    + rewrite bool_decide_eq_false_2.
      * by rewrite get_set_ne.
      * intros [? | ?]%elem_of_cons; congruence.
Qed.

Lemma key_present (value : Js.Object) (pk : string) :
  Js.get value pk <> Js.VUndefined -> pk ∈ Js.keys value.
Proof.
  intros Hdef. destruct (decide (pk ∈ Js.keys value)) as [|Hnin]; [done |].
  by apply get_absent in Hnin.
Qed.

Lemma merge_keeps_key (row value : Js.Object) (pk : string) :
  NoDup (Js.keys value) ->
  Js.get value pk <> Js.VUndefined ->
  Js.get (MemRealm.merge row value) pk = Js.get value pk.
Proof.
  intros Hnd Hdef. rewrite get_merge by done.
  by rewrite bool_decide_eq_true_2 by (by apply key_present).
Qed.

Lemma with_key_merged (pk : string) (value : Js.Object)
    (table : list Js.Object) :
  NoDup (Js.keys value) ->
  Js.get value pk <> Js.VUndefined ->
  MemRealm.with_key pk (Js.get value pk)
    (map (fun row => if MemRealm.has_key pk (Js.get value pk) row
                     then MemRealm.merge row value else row)
         table)
  = map (fun row => MemRealm.merge row value)
        (MemRealm.with_key pk (Js.get value pk) table).
Proof.
  intros Hnd Hdef. unfold MemRealm.with_key.
  induction table as [|row table IH]; [done |].
  rewrite map_cons, !filter_cons.
  destruct (MemRealm.has_key pk (Js.get value pk) row) eqn:Hrow.
  - assert (Hm : MemRealm.has_key pk (Js.get value pk)
                   (MemRealm.merge row value) = true).
    { unfold MemRealm.has_key. apply bool_decide_eq_true_2.
      by apply merge_keeps_key. }
    rewrite !decide_True by done. by rewrite map_cons, IH.
  - rewrite Hrow. rewrite !decide_False by done. apply IH.
Qed.

Lemma with_key_appended (pk : string) (value : Js.Object)
    (table : list Js.Object) :
  MemRealm.with_key pk (Js.get value pk) (table ++ [value])
  = MemRealm.with_key pk (Js.get value pk) table ++ [value].
Proof.
  unfold MemRealm.with_key. rewrite filter_app. f_equal.
  rewrite filter_cons, decide_True; [done |].
  unfold MemRealm.has_key. by apply bool_decide_eq_true_2.
Qed.

Lemma rows_with_table (t : string) (table : list Js.Object)
    (st : MemRealm.Store) :
  MemRealm.rows t (MemRealm.with_table t table st) = table.
Proof.
  unfold MemRealm.rows, MemRealm.with_table. simpl.
  by rewrite lookup_insert_eq.
Qed.

Lemma create_merges (st : MemRealm.Store) (t pk : string)
    (table : list Js.Object) (value old : Js.Object)
    (others : list Js.Object) :
  MemRealm.tables st !! t = Some table ->
  MemRealm.keyOf st !! t = Some (Some pk) ->
  Js.get value pk <> Js.VUndefined ->
  MemRealm.with_key pk (Js.get value pk) table = old :: others ->
  MemRealm.create t value true st
  = inr ((t, MemRealm.merge old value),
         MemRealm.with_table t
           (map (fun row => if MemRealm.has_key pk (Js.get value pk) row
                            then MemRealm.merge row value else row)
                table)
           st).
Proof.
  intros Ht Hk Hdef Hold. unfold MemRealm.create.
  rewrite Ht, Hk, bool_decide_eq_false_2 by done.
  by rewrite Hold.
Qed.

Lemma create_inserts (st : MemRealm.Store) (t pk : string)
    (table : list Js.Object) (value : Js.Object) (update : bool) :
  MemRealm.tables st !! t = Some table ->
  MemRealm.keyOf st !! t = Some (Some pk) ->
  Js.get value pk <> Js.VUndefined ->
  MemRealm.with_key pk (Js.get value pk) table = [] ->
  MemRealm.create t value update st
  = inr ((t, value), MemRealm.with_table t (table ++ [value]) st).
Proof.
  intros Ht Hk Hdef Hnone. unfold MemRealm.create.
  rewrite Ht, Hk, bool_decide_eq_false_2 by done.
  by rewrite Hnone.
Qed.

Section UpdateInMemory.

Context {App : Type}.

Implicit Types (w : @World MemRealm.engine App).

(** An update of a record that exists. *)
Lemma updateItem_existing w (t pk : string) (table : list Js.Object)
    (value old : Js.Object) :
  t ∈ schemaNames w ->
  MemRealm.tables (realm w) !! t = Some table ->
  MemRealm.keyOf (realm w) !! t = Some (Some pk) ->
  NoDup (Js.keys value) ->
  Js.get value pk <> Js.VUndefined ->
  MemRealm.with_key pk (Js.get value pk) table = [old] ->
  exists table',
    updateItem t value w
    = (Normal (t, MemRealm.merge old value),
       with_calls
         (calls w ++ [Realm.Begin; Realm.Create t value true; Realm.Commit])
         (with_realm (E := MemRealm.engine)
            (MemRealm.with_table t table' (realm w)) w)) /\
    MemRealm.with_key pk (Js.get value pk) table'
    = [MemRealm.merge old value] /\
    length table' = length table.
Proof.
  intros Hin Ht Hk Hnd Hdef Hold.
  exists (map (fun row => if MemRealm.has_key pk (Js.get value pk) row
                          then MemRealm.merge row value else row)
              table).
  split; [| split].
  - rewrite updateItem_known by done.
    change (Realm.create t value true (realm w))
      with (MemRealm.create t value true (realm w)).
    by rewrite (create_merges _ t pk table value old []).
  - by rewrite with_key_merged, Hold.
  - by rewrite length_map.
Qed.

(** An update of a record that does not exist yet. *)
Lemma updateItem_fresh w (t pk : string) (table : list Js.Object)
    (value : Js.Object) :
  t ∈ schemaNames w ->
  MemRealm.tables (realm w) !! t = Some table ->
  MemRealm.keyOf (realm w) !! t = Some (Some pk) ->
  Js.get value pk <> Js.VUndefined ->
  MemRealm.with_key pk (Js.get value pk) table = [] ->
  updateItem t value w
  = (Normal (t, value),
     with_calls
       (calls w ++ [Realm.Begin; Realm.Create t value true; Realm.Commit])
       (with_realm (E := MemRealm.engine)
          (MemRealm.with_table t (table ++ [value]) (realm w)) w)).
Proof.
  intros Hin Ht Hk Hdef Hnone.
  rewrite updateItem_known by done.
  change (Realm.create t value true (realm w))
    with (MemRealm.create t value true (realm w)).
  by rewrite (create_inserts _ t pk table value true).
Qed.

(** Whatever the table held for the key, after one update it holds one
    record for it. *)
Lemma updateItem_one_record w (t pk : string) (table : list Js.Object)
    (value : Js.Object) :
  t ∈ schemaNames w ->
  MemRealm.tables (realm w) !! t = Some table ->
  MemRealm.keyOf (realm w) !! t = Some (Some pk) ->
  NoDup (Js.keys value) ->
  Js.get value pk <> Js.VUndefined ->
  (length (MemRealm.with_key pk (Js.get value pk) table) <= 1)%nat ->
  exists row table',
    updateItem t value w
    = (Normal (t, row),
       with_calls
         (calls w ++ [Realm.Begin; Realm.Create t value true; Realm.Commit])
         (with_realm (E := MemRealm.engine)
            (MemRealm.with_table t table' (realm w)) w)) /\
    MemRealm.with_key pk (Js.get value pk) table' = [row].
Proof.
  intros Hin Ht Hk Hnd Hdef Hunique.
  destruct (MemRealm.with_key pk (Js.get value pk) table)
    as [|old [|other others]] eqn:Hold.
  - exists value, (table ++ [value]). split.
    + by apply (updateItem_fresh w t pk table value).
    + by rewrite with_key_appended, Hold.
  - destruct (updateItem_existing w t pk table value old)
      as (table' & Hrun & Hone & _); try done.
    by exists (MemRealm.merge old value), table'.
  - simpl in Hunique. lia.
Qed.

End UpdateInMemory.

(** C4. For a registered name [updateItem] makes one create in update mode
    inside one write scope and returns the record the engine gives back;
    when the engine throws, the scope is cancelled and the error goes to
    the sink and on to the caller.  On the in-memory engine, with a record
    of the same primary key stored, the fields present in the value are
    overwritten and the others are left as they were, and the number of
    records does not change.  Two updates of the key [k], the first with
    [f] set to 1 and the second with [f] set to 2, return normally and
    leave exactly one record with that key, in which [f] is 2; the second
    call returns that record. *)
Theorem updateItem_merges :
  (forall (E : Realm.Engine) (App : Type) (w : World App) key value,
     key ∈ schemaNames w ->
     updateItem key value w =
     match Realm.create key value true (realm w) with
     | inr (item, r') =>
         (Normal item,
          with_calls
            (calls w ++
             [Realm.Begin; Realm.Create key value true; Realm.Commit])
            (with_realm r' w))
     | inl error =>
         (Throw (Js.new_Error_from error),
          (onUncaught error
             (with_calls
                (calls w ++
                 [Realm.Begin; Realm.Create key value true; Realm.Cancel])
                w)).2)
     end) /\
  (forall (App : Type) (w : @World MemRealm.engine App) t pk table value old,
     t ∈ schemaNames w ->
     MemRealm.tables (realm w) !! t = Some table ->
     MemRealm.keyOf (realm w) !! t = Some (Some pk) ->
     NoDup (Js.keys value) ->
     Js.get value pk <> Js.VUndefined ->
     MemRealm.with_key pk (Js.get value pk) table = [old] ->
     let merged := MemRealm.merge old value in
     let after := updateItem t value w in
     after.1 = Normal (t, merged) /\
     MemRealm.with_key pk (Js.get value pk) (MemRealm.rows t (realm after.2))
     = [merged] /\
     length (MemRealm.rows t (realm after.2)) = length table /\
     (forall field,
        Js.get merged field
        = if bool_decide (field ∈ Js.keys value) then Js.get value field
          else Js.get old field)) /\
  (forall (App : Type) (w : @World MemRealm.engine App) t pk f table k,
     t ∈ schemaNames w ->
     MemRealm.tables (realm w) !! t = Some table ->
     MemRealm.keyOf (realm w) !! t = Some (Some pk) ->
     pk <> f ->
     k <> Js.VUndefined ->
     (length (MemRealm.with_key pk k table) <= 1)%nat ->
     let first := updateItem t [(pk, k); (f, Js.VNumber 1)] w in
     let second := updateItem t [(pk, k); (f, Js.VNumber 2)] first.2 in
     exists item row,
       first.1 = Normal item /\
       second.1 = Normal (t, row) /\
       MemRealm.with_key pk k (MemRealm.rows t (realm second.2)) = [row] /\
       Js.get row pk = k /\
       Js.get row f = Js.VNumber 2).
Proof.
  split; [| split].
  - intros E App w key value Hin. by apply updateItem_known.
  - intros App w t pk table value old Hin Ht Hk Hnd Hdef Hold merged after.
    destruct (updateItem_existing w t pk table value old)
      as (table' & Hrun & Hone & Hlen); try done.
    unfold after. rewrite Hrun. simpl.
    rewrite rows_with_table.
    repeat split; try done.
    intros field. by apply get_merge.
  - intros App w t pk f table k Hin Ht Hk Hne Hdef Hunique first second.
    assert (Hnd : forall x, NoDup (Js.keys [(pk, k); (f, Js.VNumber x)])).
    { intros x. unfold Js.keys. simpl.
      apply NoDup_cons. split; [| apply NoDup_singleton].
      intros Hin'%list_elem_of_singleton. done. }
    assert (Hget : forall x, Js.get [(pk, k); (f, Js.VNumber x)] pk = k).
    { intros x. apply get_head_eq. }
    destruct (updateItem_one_record w t pk table
                [(pk, k); (f, Js.VNumber 1)])
      as (row1 & table1 & Hrun1 & Hone1); try done.
    { by rewrite Hget. }
    { by rewrite Hget. }
    rewrite Hget in Hone1.
    destruct (updateItem_existing first.2 t pk table1
                [(pk, k); (f, Js.VNumber 2)] row1)
      as (table2 & Hrun2 & Hone2 & _); try done.
    { unfold first. by rewrite Hrun1. }
    { unfold first. rewrite Hrun1. simpl.
      by rewrite lookup_insert_eq. }
    { unfold first. by rewrite Hrun1. }
    { by rewrite Hget. }
    { by rewrite Hget. }
    exists (t, row1), (MemRealm.merge row1 [(pk, k); (f, Js.VNumber 2)]).
    unfold second. rewrite Hrun2. cbn [fst snd].
    unfold with_calls, with_realm. cbn [realm]. rewrite rows_with_table.
    rewrite Hget in Hone2.
    split; [unfold first; by rewrite Hrun1 |].
    split; [done |]. split; [done |].
    split.
    + rewrite merge_keeps_key; [apply Hget | done | by rewrite Hget].
    + rewrite get_merge by done.
      rewrite bool_decide_eq_true_2.
      * rewrite get_head_ne by done. apply get_head_eq.
      * unfold Js.keys. simpl. set_solver.
Qed.

Lemma updateItem_merges_witness :
  let first :=
    updateItem "User" [("id", Js.VNumber 1); ("age", Js.VNumber 1)]
      Fixture.populated in
  let second :=
    updateItem "User" [("id", Js.VNumber 1); ("age", Js.VNumber 2)]
      first.2 in
  ("User" ∈ schemaNames Fixture.populated) /\
  MemRealm.rows "User" (realm Fixture.populated) = [Fixture.ann] /\
  (exists item row,
     first.1 = Normal item /\
     second.1 = Normal ("User", row) /\
     MemRealm.with_key "id" (Js.VNumber 1)
       (MemRealm.rows "User" (realm second.2)) = [row] /\
     Js.get row "id" = Js.VNumber 1 /\
     Js.get row "age" = Js.VNumber 2) /\
  MemRealm.rows "User" (realm second.2)
  = [[("id", Js.VNumber 1); ("name", Js.VString "Ann");
      ("age", Js.VNumber 2)]].
Proof.
  intros first second.
  assert (Hin : "User" ∈ schemaNames Fixture.populated).
  { apply (bool_decide_unpack _). by vm_compute. }
  destruct updateItem_merges as (_ & _ & Htwice).
  split; [exact Hin |].
  split; [by vm_compute |].
  split; [| by vm_compute].
  apply (Htwice nat Fixture.populated "User" "id" "age" [Fixture.ann]
           (Js.VNumber 1) Hin).
  - by vm_compute.
  - by vm_compute.
  - discriminate.
  - discriminate.
  - vm_compute. lia.
Defined.

(** ** Worked examples on the in-memory engine *)

(** With an error callback the sink is the callback: the application has
    counted one error and the console is empty. *)
Example sink_is_the_callback :
  let after := createItem "Order" Fixture.ann Fixture.world0_with_callback in
  after.1
  = Throw (Js.mkError "Error" "Error: Schema for Order it's not defined.") /\
  app after.2 = 1%nat /\
  console after.2 = [].
Proof. by vm_compute. Qed.

(** Without one the sink is the console; the error reported is the original
    one. *)
Example sink_is_the_console :
  let after := createItem "Order" Fixture.ann Fixture.world0 in
  after.1
  = Throw (Js.mkError "Error" "Error: Schema for Order it's not defined.") /\
  app after.2 = 0%nat /\
  console after.2
  = [Js.LogString
       "-------- ERROR CALLBACK NOT DEFINED ON STORAGE CLASS --------";
     Js.LogError (Js.mkError "Error" "Schema for Order it's not defined.")].
Proof. by vm_compute. Qed.

(** The class of the original error survives only as text. *)
Example class_is_lost :
  Js.new_Error_from (Js.mkError "TypeError" "x is not a function")
  = Js.mkError "Error" "TypeError: x is not a function".
Proof. by vm_compute. Qed.

(** A second plain create of the same primary key is refused by the engine;
    the write scope is cancelled and the stored record is the first one. *)
Example createItem_twice :
  let after := createItem "User" Fixture.ann Fixture.populated in
  after.1
  = Throw
      (Js.mkError "Error"
         "Error: Attempting to create an object of type 'User' with an existing primary key value.")
  /\
  MemRealm.rows "User" (realm after.2) = [Fixture.ann].
Proof. by vm_compute. Qed.

(** Create, query by a mapping, delete: the scenario of the specification. *)
Example create_query_delete :
  let created := createItem "User" Fixture.ann Fixture.world0 in
  let found :=
    getItems "User" (Some (FObject [("id", Js.VNumber 1)])) created.2 in
  let deleted := deleteItem Fixture.ann_record found.2 in
  created.1 = Normal Fixture.ann_record /\
  found.1 = Normal (Some Fixture.user_1) /\
  MemRealm.snapshot Fixture.user_1 (realm found.2) = [Fixture.ann] /\
  deleted.1 = Normal tt /\
  MemRealm.snapshot Fixture.users (realm deleted.2) = [].
Proof. by vm_compute. Qed.

(** [removeAll] of one type leaves the others. *)
Example removeAll_one_type :
  let after := removeAll (Some "User") Fixture.populated in
  after.1 = Normal tt /\
  MemRealm.rows "User" (realm after.2) = [] /\
  MemRealm.rows "Log" (realm after.2) = [Fixture.entry].
Proof. by vm_compute. Qed.

(** * Further properties of the methods *)

(** ** [setup] *)







(** The defaults of [setup]: version 1 when the version is omitted and
    also when it is 0, and a migration that does nothing when none is
    given. *)
Lemma setup_defaults `{E : Realm.Engine} {App : Type}
    schemas migration errorCallback (app0 : App) :
  setup schemas (Some 0) migration errorCallback app0
  = setup schemas (Some 1) migration errorCallback app0 /\
  setup schemas None migration errorCallback app0
  = setup schemas (Some 1) migration errorCallback app0 /\
  (forall version,
     setup schemas version None errorCallback app0
     = setup schemas version (Some (fun r => r)) errorCallback app0).
Proof. done. Qed.

(** X2. No call of [createItem], [updateItem], [deleteItem], [getItems] or
    [removeAll], whether it returns or throws, changes the schema list, the
    names, the table of primary keys or the error callback. *)
Theorem statics_never_change `{E : Realm.Engine} {App : Type}
    (ops : list Operation) (w : World App) :
  schemas (perform_all ops w) = schemas w /\
  schemaNames (perform_all ops w) = schemaNames w /\
  primaryKeys (perform_all ops w) = primaryKeys w /\
  errorCallback (perform_all ops w) = errorCallback w.
Proof.
  pose proof (perform_all_statics ops w) as Hst. unfold statics in Hst.
  repeat split; congruence.
Qed.

(** ** What the parts of a method leave alone *)

Section Preserved.

Context `{E : Realm.Engine} {App : Type} {X : Type}.

Variable f : World App -> X.

Hypothesis f_calls : forall l w, f (with_calls l w) = f w.

Lemma preserves_ret {A} (a : A) : preserves f (mret a : M App A).
Proof. by intros w. Qed.

Lemma preserves_throw {A} error : preserves f (throw error : M App A).
Proof. by intros w. Qed.

Lemma preserves_bind {A B} (m : M App A) (k : A -> M App B) :
  preserves f m -> (forall a, preserves f (k a)) -> preserves f (m ≫= k).
Proof.
  intros Hm Hk w. rewrite bind_run. specialize (Hm w).
  destruct (m w) as [[a | error] w1]; simpl in *; [| done].
  by rewrite Hk.
Qed.

Lemma preserves_try_catch {A} (block : M App A) handler :
  preserves f block -> (forall error, preserves f (handler error)) ->
  preserves f (try_catch block handler).
Proof.
  intros Hb Hh w. unfold try_catch. specialize (Hb w).
  destruct (block w) as [[a | error] w1]; simpl in *; [done |].
  by rewrite Hh.
Qed.

Lemma preserves_for_of {A} (xs : list A) (body : A -> M App unit) :
  (forall x, preserves f (body x)) -> preserves f (for_of xs body).
Proof.
  intros Hbody. induction xs as [|x xs IH]; simpl.
  - apply preserves_ret.
  - apply preserves_bind; [apply Hbody | by intros _].
Qed.

Lemma preserves_engine_read {A} c (g : Realm.instance -> Js.Error + A) :
  preserves f (engine_read c g : M App A).
Proof.
  intros w. unfold engine_read, record.
  destruct (g (realm w)); simpl; apply f_calls.
Qed.

Lemma preserves_checkSchema key : preserves f (checkSchema key : M App unit).
Proof.
  intros w. unfold checkSchema.
  by destruct (Js.indexOf (schemaNames w) key <? 0).
Qed.

Lemma preserves_getItems_try key filter :
  preserves f (getItems_try key filter : M App _).
Proof.
  apply preserves_bind; [apply preserves_checkSchema | intros _].
  apply preserves_bind; [| intros [d |]; apply preserves_ret].
  unfold getItems_data.
  destruct filter as [flt |]; [| apply preserves_engine_read].
  destruct (negb _); [apply preserves_engine_read |].
  apply preserves_bind; [apply preserves_engine_read |].
  intros [all |]; [apply preserves_engine_read | apply preserves_throw].
Qed.

(** Observations that the instance does not enter. *)
Hypothesis f_realm : forall r w, f (with_realm r w) = f w.

Lemma preserves_engine_write {A} c
    (g : Realm.instance -> Js.Error + (A * Realm.instance)) :
  preserves f (engine_write c g : M App A).
Proof.
  intros w. unfold engine_write, record.
  destruct (g (realm w)) as [? | [? ?]]; simpl.
  - apply f_calls.
  - by rewrite f_realm, f_calls.
Qed.

Lemma preserves_engine_update c
    (g : Realm.instance -> Js.Error + Realm.instance) :
  preserves f (engine_update c g : M App unit).
Proof.
  intros w. unfold engine_update, record.
  destruct (g (realm w)); simpl.
  - apply f_calls.
  - by rewrite f_realm, f_calls.
Qed.

Lemma preserves_realm_write {A} (callback : M App A) :
  preserves f callback -> preserves f (realm_write callback).
Proof.
  intros Hc w. unfold realm_write.
  specialize (Hc (record Realm.Begin w)).
  destruct (callback (record Realm.Begin w)) as [[a | error] w1];
    simpl in *; unfold record in *.
  - by rewrite f_calls, Hc, f_calls.
  - by rewrite f_calls, f_realm, Hc, f_calls.
Qed.

Lemma preserves_remove_type name :
  preserves f
    (data ← realm_objects name; delete_data data : M App unit).
Proof.
  apply preserves_bind; [apply preserves_engine_read |].
  intros [d |]; [| apply preserves_ret].
  apply preserves_realm_write, preserves_engine_update.
Qed.

Lemma preserves_created key value update :
  preserves f
    (checkSchema key ;;
     item ← realm_write (realm_create key value update);
     mret item : M App Realm.object).
Proof.
  apply preserves_bind; [apply preserves_checkSchema | intros _].
  apply preserves_bind; [| intros item; apply preserves_ret].
  apply preserves_realm_write, preserves_engine_write.
Qed.

Lemma preserves_removeAll_try key :
  preserves f (removeAll_try key : M App unit).
Proof.
  assert (Heach : preserves f (removeAll_each : M App unit)).
  { intros w. unfold removeAll_each.
    apply preserves_for_of. intros name. apply preserves_remove_type. }
  unfold removeAll_try.
  destruct key as [k |]; [| done].
  destruct (truthy_key _); [| done].
  apply preserves_bind; [apply preserves_checkSchema | intros _].
  apply preserves_remove_type.
Qed.

End Preserved.

(** ** The sink hears of failures only *)

Section SinkOnly.

Context `{E : Realm.Engine} {App : Type}.

Implicit Types (w : World App).

Lemma sink_after {A} (block method : M App A) w :
  reports_and_rethrows block method ->
  preserves sink block ->
  preserves errorCallback block ->
  match thrown (method w).1 with
  | None => sink (method w).2 = sink w
  | Some error' =>
      exists error,
        error' = Js.new_Error_from error /\
        sink (method w).2 =
        match errorCallback w with
        | Some callback => (callback error (app w), console w)
        | None =>
            (app w,
             console w ++
             [Js.LogString
                "-------- ERROR CALLBACK NOT DEFINED ON STORAGE CLASS --------";
              Js.LogError error])
        end
  end.
Proof.
  intros Hmethod Hsink Hcallback. rewrite Hmethod.
  specialize (Hsink w). specialize (Hcallback w).
  destruct (block w) as [[a | error] w1]; simpl in *; [done |].
  exists error. split; [done |].
  unfold onUncaught. rewrite Hcallback.
  unfold sink in Hsink. injection Hsink as Happ Hconsole.
  destruct (errorCallback w); unfold sink; simpl; by rewrite ?Happ, ?Hconsole.
Qed.

End SinkOnly.

(** X3. A call that returns normally leaves the application state and the
    console as they were: the sink is not told.  A call that throws has
    told the sink once, of the original error and not of the wrapped one
    the caller gets: the callback was applied to it, or, with no callback,
    the banner and the error were written to the console. *)
Theorem sink_told_of_failures_only `{E : Realm.Engine} {App : Type}
    (op : Operation) (w : World App) :
  match raised op w with
  | None => sink (perform op w) = sink w
  | Some error' =>
      exists error,
        error' = Js.new_Error_from error /\
        sink (perform op w) =
        match errorCallback w with
        | Some callback => (callback error (app w), console w)
        | None =>
            (app w,
             console w ++
             [Js.LogString
                "-------- ERROR CALLBACK NOT DEFINED ON STORAGE CLASS --------";
              Js.LogError error])
        end
  end.
Proof.
  destruct op as [key value | key value | item | key filter | key];
    unfold raised, perform.
  - apply (sink_after (createItem_try key value));
      [apply try_catch_rethrows | apply preserves_created; done
       | apply preserves_created; done].
  - apply (sink_after (updateItem_try key value));
      [apply try_catch_rethrows | apply preserves_created; done
       | apply preserves_created; done].
  - apply (sink_after (deleteItem_try item));
      [apply try_catch_rethrows | |];
      apply preserves_realm_write; try done;
      apply preserves_engine_update; done.
  - apply (sink_after (getItems_try key filter));
      [apply try_catch_rethrows | apply preserves_getItems_try; done
       | apply preserves_getItems_try; done].
  - apply (sink_after (removeAll_try key));
      [apply try_catch_rethrows | apply preserves_removeAll_try; done
       | apply preserves_removeAll_try; done].
Qed.

(** ** A failed call and the instance *)

Section FailsClean.

Context `{E : Realm.Engine} {App : Type}.

Implicit Types (w : World App).

Lemma rethrow_keeps_instance {A} (block method : M App A) w :
  reports_and_rethrows block method ->
  (thrown (block w).1 <> None -> realm (block w).2 = realm w) ->
  thrown (method w).1 <> None -> realm (method w).2 = realm w.
Proof.
  intros Hmethod Hblock. rewrite Hmethod.
  destruct (block w) as [[a | error] w1]; simpl in *; [done |].
  intros _. destruct (onUncaught_untouched error w1) as [-> _].
  by apply Hblock.
Qed.

Lemma created_fails_clean key value update w :
  thrown
    ((checkSchema key ;;
      item ← realm_write (realm_create key value update);
      mret item) w).1 <> None ->
  realm
    ((checkSchema key ;;
      item ← realm_write (realm_create key value update);
      mret item) w).2 = realm w.
Proof.
  rewrite !bind_run. unfold checkSchema.
  destruct (Js.indexOf (schemaNames w) key <? 0); simpl; [done |].
  rewrite bind_run. unfold realm_write, realm_create, engine_write. simpl.
  destruct (Realm.create key value update (realm w)) as [error | [item r]];
    simpl; [| done].
  intros _. by destruct w.
Qed.

Lemma deleteItem_fails_clean item w :
  thrown (deleteItem_try item w).1 <> None ->
  realm (deleteItem_try item w).2 = realm w.
Proof.
  unfold deleteItem_try, realm_write, realm_delete_object, engine_update.
  simpl. destruct (Realm.delete_object item (realm w)); simpl; [| done].
  intros _. by destruct w.
Qed.

Lemma remove_type_fails_clean name w :
  thrown ((data ← realm_objects name; delete_data data) w).1 <> None ->
  realm ((data ← realm_objects name; delete_data data) w).2 = realm w.
Proof.
  rewrite bind_run. unfold realm_objects, engine_read.
  destruct (Realm.objects name (realm w)) as [error | [d |]]; simpl;
    [done | | done].
  unfold realm_write, realm_delete_results, engine_update. simpl.
  destruct (Realm.delete_results d (realm w)); simpl; [| done].
  intros _. by destruct w.
Qed.

Lemma removeAll_keyed_fails_clean k w :
  truthy_key (Some k) = true ->
  thrown (removeAll_try (Some k) w).1 <> None ->
  realm (removeAll_try (Some k) w).2 = realm w.
Proof.
  intros Htruthy. unfold removeAll_try. rewrite Htruthy.
  rewrite bind_run. unfold checkSchema.
  destruct (Js.indexOf (schemaNames w) k <? 0); simpl; [done |].
  apply remove_type_fails_clean.
Qed.

Lemma realm_after_calls (l : list Realm.Call) w :
  realm (with_calls l w) = realm w.
Proof. done. Qed.

Lemma getItems_keeps_instance key filter :
  preserves realm (getItems key filter : M App _).
Proof.
  apply preserves_try_catch.
  - apply preserves_getItems_try. done.
  - intros error w. rewrite bind_run.
    destruct (onUncaught_untouched error w) as [Hrealm _].
    unfold onUncaught in *. by destruct (errorCallback w).
Qed.

End FailsClean.

(** X4. A call of [createItem], [updateItem], [deleteItem], [getItems] or
    [removeAll] with a name that throws leaves the engine instance, which
    [getModel] hands out, as it was before the call: the write scope it
    opened, if any, was cancelled. *)
Theorem failed_call_keeps_instance `{E : Realm.Engine} {App : Type}
    (op : Operation) (w : World App) :
  sweeps op = false ->
  raised op w <> None ->
  getModel (perform op w) = getModel w.
Proof.
  unfold getModel.
  destruct op as [key value | key value | item | key filter | key];
    unfold raised, perform, sweeps; intros Hsingle Hthrows.
  - apply (rethrow_keeps_instance (createItem_try key value));
      [apply try_catch_rethrows | apply created_fails_clean | done].
  - apply (rethrow_keeps_instance (updateItem_try key value));
      [apply try_catch_rethrows | apply created_fails_clean | done].
  - apply (rethrow_keeps_instance (deleteItem_try item));
      [apply try_catch_rethrows | apply deleteItem_fails_clean | done].
  - apply getItems_keeps_instance.
  - destruct key as [k |]; [| done].
    apply negb_false_iff in Hsingle.
    apply (rethrow_keeps_instance (removeAll_try (Some k)));
      [apply try_catch_rethrows | by apply removeAll_keyed_fails_clean
       | done].
Qed.

Lemma failed_call_keeps_instance_witness :
  raised (CreateItem "User" Fixture.ann) Fixture.populated <> None /\
  raised (DeleteItem Fixture.ann_record) Fixture.failing = None /\
  raised (RemoveAll (Some "Log")) Fixture.failing <> None /\
  getModel (perform (CreateItem "User" Fixture.ann) Fixture.populated)
  = getModel Fixture.populated /\
  getModel (perform (RemoveAll (Some "Log")) Fixture.failing)
  = getModel Fixture.failing.
Proof.
  assert (H1 : raised (CreateItem "User" Fixture.ann) Fixture.populated
               <> None) by (vm_compute; discriminate).
  assert (H2 : raised (RemoveAll (Some "Log")) Fixture.failing <> None)
    by (vm_compute; discriminate).
  split; [exact H1 |]. split; [by vm_compute |]. split; [exact H2 |].
  split.
  - exact (failed_call_keeps_instance
             (CreateItem "User" Fixture.ann) Fixture.populated eq_refl H1).
  - exact (failed_call_keeps_instance
             (RemoveAll (Some "Log")) Fixture.failing eq_refl H2).
Defined.

(** ** The record of calls *)

Section Appends.

Context `{E : Realm.Engine} {App : Type}.

Variable P : list Realm.Call -> Prop.

Hypothesis P_nil : P [].

Hypothesis P_app : forall a b, P a -> P b -> P (a ++ b).

Lemma appends_ret {A} (a : A) : appends P (mret a : M App A).
Proof. intros w. exists []. by rewrite app_nil_r. Qed.

Lemma appends_throw {A} error : appends P (throw error : M App A).
Proof. intros w. exists []. by rewrite app_nil_r. Qed.

Lemma appends_bind {A B} (m : M App A) (k : A -> M App B) :
  appends P m -> (forall a, appends P (k a)) -> appends P (m ≫= k).
Proof.
  intros Hm Hk w. rewrite bind_run. destruct (Hm w) as (cs1 & Hcs1 & HP1).
  destruct (m w) as [[a | error] w1]; simpl in *; [| by exists cs1].
  destruct (Hk a w1) as (cs2 & Hcs2 & HP2).
  exists (cs1 ++ cs2). split; [| by apply P_app].
  by rewrite Hcs2, Hcs1, app_assoc.
Qed.

Lemma appends_try_catch {A} (block : M App A) handler :
  appends P block -> (forall error, appends P (handler error)) ->
  appends P (try_catch block handler).
Proof.
  intros Hb Hh w. unfold try_catch. destruct (Hb w) as (cs1 & Hcs1 & HP1).
  destruct (block w) as [[a | error] w1]; simpl in *; [by exists cs1 |].
  destruct (Hh error w1) as (cs2 & Hcs2 & HP2).
  exists (cs1 ++ cs2). split; [| by apply P_app].
  by rewrite Hcs2, Hcs1, app_assoc.
Qed.

Lemma appends_for_of {A} (xs : list A) (body : A -> M App unit) :
  (forall x, appends P (body x)) -> appends P (for_of xs body).
Proof.
  intros Hbody. induction xs as [|x xs IH]; simpl.
  - apply appends_ret.
  - apply appends_bind; [apply Hbody | by intros _].
Qed.

Lemma appends_checkSchema key : appends P (checkSchema key : M App unit).
Proof.
  intros w. exists []. unfold checkSchema.
  destruct (Js.indexOf (schemaNames w) key <? 0); by rewrite app_nil_r.
Qed.

Lemma appends_onUncaught error : appends P (onUncaught error : M App unit).
Proof.
  intros w. exists []. unfold onUncaught.
  destruct (errorCallback w); by rewrite app_nil_r.
Qed.

Lemma appends_catch_clause {A} error :
  appends P (onUncaught error ;; throw (Js.new_Error_from error) : M App A).
Proof.
  apply appends_bind; [apply appends_onUncaught | intros _].
  apply appends_throw.
Qed.

Lemma appends_engine_read {A} c (g : Realm.instance -> Js.Error + A) :
  P [c] -> appends P (engine_read c g : M App A).
Proof.
  intros Hc w. exists [c]. unfold engine_read.
  by destruct (g (realm w)).
Qed.

Lemma appends_engine_write {A} c
    (g : Realm.instance -> Js.Error + (A * Realm.instance)) :
  P [c] -> appends P (engine_write c g : M App A).
Proof.
  intros Hc w. exists [c]. unfold engine_write.
  by destruct (g (realm w)) as [? | [? ?]].
Qed.

Lemma appends_engine_update c
    (g : Realm.instance -> Js.Error + Realm.instance) :
  P [c] -> appends P (engine_update c g : M App unit).
Proof.
  intros Hc w. exists [c]. unfold engine_update.
  by destruct (g (realm w)).
Qed.

Lemma appends_getItems key filter :
  (forall c, is_read c = true -> P [c]) ->
  appends P (getItems key filter : M App _).
Proof.
  intros Hread.
  apply appends_try_catch; [| intros error; apply appends_catch_clause].
  apply appends_bind; [apply appends_checkSchema | intros _].
  apply appends_bind; [| intros [d |]; apply appends_ret].
  unfold getItems_data.
  destruct filter as [flt |]; [| by apply appends_engine_read, Hread].
  destruct (negb _); [by apply appends_engine_read, Hread |].
  apply appends_bind; [by apply appends_engine_read, Hread |].
  intros [all |]; [by apply appends_engine_read, Hread | apply appends_throw].
Qed.

End Appends.

Section Scopes.

Context `{E : Realm.Engine} {App : Type}.

Implicit Types (w : World App).

Lemma scoped_app (inside : bool) (a b : list Realm.Call) :
  scoped inside (a ++ b) = scoped inside a ≫= fun s => scoped s b.
Proof.
  revert inside. induction a as [|c a IH]; intros inside; [done |].
  destruct c, inside; simpl; try done; apply IH.
Qed.

Lemma keeps_scope_nil inside : keeps_scope inside [].
Proof. done. Qed.

Lemma keeps_scope_app inside (a b : list Realm.Call) :
  keeps_scope inside a -> keeps_scope inside b -> keeps_scope inside (a ++ b).
Proof.
  unfold keeps_scope. intros Ha Hb. by rewrite scoped_app, Ha.
Qed.

(** A callback that stays inside the scope makes a closed scope. *)
Lemma realm_write_closes {A} (callback : M App A) :
  appends (keeps_scope true) callback ->
  appends (keeps_scope false) (realm_write callback).
Proof.
  intros Hc w. unfold realm_write.
  destruct (Hc (record Realm.Begin w)) as (cs & Hcs & Hin).
  destruct (callback (record Realm.Begin w)) as [[a | error] w1];
    simpl in *.
  - exists ([Realm.Begin] ++ cs ++ [Realm.Commit]). split.
    + rewrite Hcs. by rewrite <- !app_assoc.
    + unfold keeps_scope in *. simpl. by rewrite scoped_app, Hin.
  - exists ([Realm.Begin] ++ cs ++ [Realm.Cancel]). split.
    + rewrite Hcs. by rewrite <- !app_assoc.
    + unfold keeps_scope in *. simpl. by rewrite scoped_app, Hin.
Qed.

Lemma remove_type_scoped name :
  appends (keeps_scope false)
    (data ← realm_objects name; delete_data data : M App unit).
Proof.
  apply appends_bind; [apply keeps_scope_app | |].
  - by apply appends_engine_read.
  - intros [d |]; [| by apply appends_ret].
    apply realm_write_closes.
    by apply appends_engine_update.
Qed.

Lemma created_scoped key value update :
  appends (keeps_scope false)
    (checkSchema key ;;
     item ← realm_write (realm_create key value update);
     mret item : M App Realm.object).
Proof.
  apply appends_bind; [apply keeps_scope_app | by apply appends_checkSchema |].
  intros _.
  apply appends_bind; [apply keeps_scope_app | |].
  - apply realm_write_closes. by apply appends_engine_write.
  - intros item. by apply appends_ret.
Qed.

Lemma perform_scoped (op : Operation) w :
  exists cs,
    calls (perform op w) = calls w ++ cs /\ keeps_scope false cs.
Proof.
  assert (Hcatch : forall A error,
            appends (keeps_scope false)
              (onUncaught error ;; throw (Js.new_Error_from error)
               : M App A)).
  { intros A error. apply appends_catch_clause; [done |].
    apply keeps_scope_app. }
  destruct op as [key value | key value | item | key filter | key]; simpl.
  - apply appends_try_catch;
      [apply keeps_scope_app | apply created_scoped | apply Hcatch].
  - apply appends_try_catch;
      [apply keeps_scope_app | apply created_scoped | apply Hcatch].
  - apply appends_try_catch; [apply keeps_scope_app | | apply Hcatch].
    apply realm_write_closes. by apply appends_engine_update.
  - apply appends_getItems; [done | apply keeps_scope_app |].
    by intros [].
  - apply appends_try_catch; [apply keeps_scope_app | | apply Hcatch].
    unfold removeAll_try.
    assert (Heach : appends (keeps_scope false)
                      (removeAll_each : M App unit)).
    { intros w'. unfold removeAll_each.
      apply appends_for_of; [done | apply keeps_scope_app |].
      intros name. apply remove_type_scoped. }
    destruct key as [k |]; [| done].
    destruct (truthy_key _); [| done].
    apply appends_bind;
      [apply keeps_scope_app | by apply appends_checkSchema |].
    intros _. apply remove_type_scoped.
Qed.

Lemma perform_all_scoped (ops : list Operation) w :
  exists cs,
    calls (perform_all ops w) = calls w ++ cs /\ keeps_scope false cs.
Proof.
  revert w. induction ops as [|op ops IH]; intros w.
  - exists []. by rewrite app_nil_r.
  - unfold perform_all in *. simpl.
    destruct (perform_scoped op w) as (cs1 & Hcs1 & H1).
    destruct (IH (perform op w)) as (cs2 & Hcs2 & H2).
    exists (cs1 ++ cs2). split; [| by apply keeps_scope_app].
    by rewrite Hcs2, Hcs1, app_assoc.
Qed.

End Scopes.

(** X5. Whatever methods are called, and whether they return or throw, the
    record of engine calls only grows, and what is added is well scoped:
    every create and delete is inside a write scope, no scope is opened
    inside another, and every scope is closed, by a commit or a cancel,
    before the call ends.  Started from [setup], the whole record is. *)
Theorem write_scopes_closed `{E : Realm.Engine} {App : Type}
    (ops : list Operation) (w : World App) :
  (exists cs,
     calls (perform_all ops w) = calls w ++ cs /\
     scoped false cs = Some false) /\
  (forall schemas version migration errorCallback app0,
     setup schemas version migration errorCallback app0 = inr w ->
     scoped false (calls (perform_all ops w)) = Some false).
Proof.
  destruct (perform_all_scoped ops w) as (cs & Hcs & Hscoped).
  split; [by exists cs |].
  intros schemas version migration errorCallback app0 Hsetup.
  rewrite Hcs.
  assert (calls w = []) as ->; [| done].
  unfold setup in Hsetup. destruct (Realm.construct _ _ _); [done |].
  by injection Hsetup as <-.
Qed.

Lemma write_scopes_closed_witness :
  scoped false
    (calls
       (perform_all
          [CreateItem "User" Fixture.ann; CreateItem "User" Fixture.ann;
           RemoveAll None; GetItems "Order" None]
          Fixture.world0))
  = Some false.
Proof.
  destruct (write_scopes_closed (E := MemRealm.engine)
              [CreateItem "User" Fixture.ann; CreateItem "User" Fixture.ann;
               RemoveAll None; GetItems "Order" None]
              Fixture.world0) as [_ Hall].
  exact (Hall Fixture.schemas (Some 1) None None 0%nat fixture_opened).
Defined.

(** X6. [getItems] only reads: whether it returns or throws, the engine
    instance is the one before the call, and the engine calls it made are
    lookups and filters; no write scope is opened. *)
Theorem getItems_only_reads `{E : Realm.Engine} {App : Type}
    (key : string) (filter : option Filter) (w : World App) :
  getModel (getItems key filter w).2 = getModel w /\
  exists cs,
    calls (getItems key filter w).2 = calls w ++ cs /\
    only_reads cs.
Proof.
  split; [apply getItems_keeps_instance |].
  apply (appends_getItems only_reads).
  - apply Forall_nil_2.
  - intros a b. apply Forall_app_2.
  - intros c Hc. by apply Forall_singleton.
Qed.

(** ** One write scope per call *)

Section OneScope.

Context `{E : Realm.Engine} {App : Type}.

Implicit Types (w : World App).

Lemma createItem_known key value w :
  key ∈ schemaNames w ->
  createItem key value w =
  match Realm.create key value false (realm w) with
  | inr (item, r') =>
      (Normal item,
       with_calls
         (calls w ++
          [Realm.Begin; Realm.Create key value false; Realm.Commit])
         (with_realm r' w))
  | inl error =>
      (Throw (Js.new_Error_from error),
       (onUncaught error
          (with_calls
             (calls w ++
              [Realm.Begin; Realm.Create key value false; Realm.Cancel])
             w)).2)
  end.
Proof.
  intros Hin. unfold createItem.
  rewrite (try_catch_rethrows (createItem_try key value)).
  unfold createItem_try. rewrite bind_run, checkSchema_known by done.
  rewrite bind_run.
  unfold realm_write, realm_create, engine_write. simpl.
  destruct (Realm.create key value false (realm w)) as [error | [item r']];
    destruct w; unfold record, with_calls, with_realm; simpl;
    by rewrite <- !app_assoc.
Qed.

Lemma deleteItem_run item w :
  deleteItem item w =
  match Realm.delete_object item (realm w) with
  | inr r' =>
      (Normal tt,
       with_calls
         (calls w ++ [Realm.Begin; Realm.DeleteObject item; Realm.Commit])
         (with_realm r' w))
  | inl error =>
      (Throw (Js.new_Error_from error),
       (onUncaught error
          (with_calls
             (calls w ++ [Realm.Begin; Realm.DeleteObject item; Realm.Cancel])
             w)).2)
  end.
Proof.
  unfold deleteItem.
  rewrite (try_catch_rethrows (deleteItem_try item)).
  unfold deleteItem_try, realm_write, realm_delete_object, engine_update.
  simpl.
  destruct (Realm.delete_object item (realm w)) as [error | r'];
    destruct w; unfold record, with_calls, with_realm; simpl;
    by rewrite <- !app_assoc.
Qed.

Lemma step_lookup_fails name error w :
  Realm.objects name (realm w) = inl error ->
  (data ← realm_objects name; delete_data data) w
  = (Throw error, with_calls (calls w ++ [Realm.Objects name]) w).
Proof.
  intros Hobjects. rewrite bind_run.
  unfold realm_objects, engine_read. by rewrite Hobjects.
Qed.

(** [removeAll] with a registered, non-empty name is its loop body under
    the catch clause. *)
Lemma removeAll_keyed k w :
  k ∈ schemaNames w -> k <> "" ->
  removeAll (Some k) w =
  match (data ← realm_objects k; delete_data data) w with
  | (Normal a, w1) => (Normal a, w1)
  | (Throw error, w1) =>
      (Throw (Js.new_Error_from error), (onUncaught error w1).2)
  end.
Proof.
  intros Hin Hne. unfold removeAll.
  rewrite (try_catch_rethrows (removeAll_try (Some k))).
  unfold removeAll_try, truthy_key. rewrite truthy_string_ne by done.
  by rewrite bind_run, checkSchema_known.
Qed.

End OneScope.

(** X7. For a registered name [createItem] makes one create, not in update
    mode, inside one write scope.  When the engine accepts it the scope is
    committed and the record the engine made is returned; when the engine
    throws, the scope is cancelled, the instance is the one before the
    call, the sink is told and the wrapped error is thrown. *)
Theorem createItem_one_scope `{E : Realm.Engine} {App : Type}
    (w : World App) (key : string) (value : Js.Object) :
  key ∈ schemaNames w ->
  createItem key value w =
  match Realm.create key value false (realm w) with
  | inr (item, r') =>
      (Normal item,
       with_calls
         (calls w ++
          [Realm.Begin; Realm.Create key value false; Realm.Commit])
         (with_realm r' w))
  | inl error =>
      (Throw (Js.new_Error_from error),
       (onUncaught error
          (with_calls
             (calls w ++
              [Realm.Begin; Realm.Create key value false; Realm.Cancel])
             w)).2)
  end.
Proof. apply createItem_known. Qed.

Lemma createItem_one_scope_witness :
  ("User" ∈ schemaNames Fixture.world0) /\
  (createItem "User" Fixture.ann Fixture.world0).1
  = Normal Fixture.ann_record /\
  calls (createItem "User" Fixture.ann Fixture.world0).2
  = [Realm.Begin; Realm.Create "User" Fixture.ann false; Realm.Commit] /\
  (createItem "User" Fixture.ann Fixture.populated).1
  = Throw
      (Js.new_Error_from
         (Js.new_Error
            "Attempting to create an object of type 'User' with an existing primary key value.")).
Proof.
  assert (Hin : "User" ∈ schemaNames Fixture.world0).
  { apply (bool_decide_unpack _). by vm_compute. }
  assert (Hin' : "User" ∈ schemaNames Fixture.populated).
  { apply (bool_decide_unpack _). by vm_compute. }
  split; [exact Hin |].
  rewrite (createItem_one_scope Fixture.world0 "User" Fixture.ann Hin).
  rewrite (createItem_one_scope Fixture.populated "User" Fixture.ann Hin').
  repeat split; reflexivity.
Defined.

(** X8. [deleteItem] does not consult the registered names: for any record
    it makes one delete inside one write scope, committed when the engine
    accepts it; when the engine throws, the scope is cancelled, the sink is
    told and the wrapped error is thrown. *)
Theorem deleteItem_one_scope `{E : Realm.Engine} {App : Type}
    (w : World App) (item : Realm.object) :
  deleteItem item w =
  match Realm.delete_object item (realm w) with
  | inr r' =>
      (Normal tt,
       with_calls
         (calls w ++ [Realm.Begin; Realm.DeleteObject item; Realm.Commit])
         (with_realm r' w))
  | inl error =>
      (Throw (Js.new_Error_from error),
       (onUncaught error
          (with_calls
             (calls w ++ [Realm.Begin; Realm.DeleteObject item; Realm.Cancel])
             w)).2)
  end.
Proof. apply deleteItem_run. Qed.

(** X9. [removeAll] with a registered, non-empty name looks the type up
    once.  When the lookup throws, no scope is opened.  When it gives a
    nullish value, nothing is deleted and the call returns.  Otherwise the
    collection is deleted inside one write scope, committed when the
    engine accepts the deletion and cancelled when it throws. *)
Theorem removeAll_named_type `{E : Realm.Engine} {App : Type}
    (w : World App) (k : string) :
  k ∈ schemaNames w ->
  k <> "" ->
  removeAll (Some k) w =
  match Realm.objects k (realm w) with
  | inl error =>
      (Throw (Js.new_Error_from error),
       (onUncaught error (with_calls (calls w ++ [Realm.Objects k]) w)).2)
  | inr Realm.Nullish =>
      (Normal tt, with_calls (calls w ++ [Realm.Objects k]) w)
  | inr (Realm.Results d) =>
      match Realm.delete_results d (realm w) with
      | inr r' =>
          (Normal tt,
           with_calls
             (calls w ++
              [Realm.Objects k; Realm.Begin; Realm.DeleteResults d;
               Realm.Commit])
             (with_realm r' w))
      | inl error =>
          (Throw (Js.new_Error_from error),
           (onUncaught error
              (with_calls
                 (calls w ++
                  [Realm.Objects k; Realm.Begin; Realm.DeleteResults d;
                   Realm.Cancel])
                 w)).2)
      end
  end.
Proof.
  intros Hin Hne. rewrite removeAll_keyed by done.
  destruct (Realm.objects k (realm w)) as [error | [d |]] eqn:Hobjects.
  - by rewrite (step_lookup_fails k error).
  - destruct (Realm.delete_results d (realm w)) as [error | r'] eqn:Hdelete.
    + by rewrite (step_cancels k d error).
    + by rewrite (step_commits k d r').
  - by rewrite step_skips.
Qed.

Lemma removeAll_named_type_witness :
  ("Log" ∈ schemaNames Fixture.failing) /\
  (removeAll (Some "Log") Fixture.failing).1
  = Throw (Js.new_Error_from (MemRealm.refusal "Log")) /\
  calls (removeAll (Some "User") Fixture.world0).2
  = [Realm.Objects "User"; Realm.Begin; Realm.DeleteResults Fixture.users;
     Realm.Commit].
Proof.
  assert (Hin : "Log" ∈ schemaNames Fixture.failing).
  { apply (bool_decide_unpack _). by vm_compute. }
  assert (Hin' : "User" ∈ schemaNames Fixture.world0).
  { apply (bool_decide_unpack _). by vm_compute. }
  split; [exact Hin |].
  rewrite (removeAll_named_type Fixture.failing "Log" Hin) by discriminate.
  rewrite (removeAll_named_type Fixture.world0 "User" Hin') by discriminate.
  split; reflexivity.
Defined.

(** ** [removeAll] without a name, in general *)

Section Sweep.

Context `{E : Realm.Engine} {App : Type}.

Implicit Types (w : World App).

(** The loop always ends with the instance that the scopes of some first
    part of the names committed; it completes exactly when that part is
    all of them. *)
Lemma each_commits_a_prefix (names : list string) w :
  exists pre post cs r1,
    names = pre ++ post /\
    committed_each pre (realm w) cs r1 /\
    realm
      (for_of names (fun name => data ← realm_objects name; delete_data data)
         w).2 = r1 /\
    ((for_of names (fun name => data ← realm_objects name; delete_data data)
        w).1 = Normal tt <-> post = []).
Proof.
  revert w. induction names as [|n names IH]; intros w.
  - exists [], [], [], (realm w). repeat split; constructor.
  - cbn [for_of]. rewrite bind_run.
    destruct (Realm.objects n (realm w)) as [error | [d |]] eqn:Hobjects.
    + rewrite (step_lookup_fails n error) by done.
      exists [], (n :: names), [], (realm w).
      repeat split; try done. constructor.
    + destruct (Realm.delete_results d (realm w)) as [error | r'] eqn:Hdelete.
      * rewrite (step_cancels n d error) by done.
        exists [], (n :: names), [], (realm w).
        repeat split; try done. constructor.
      * rewrite (step_commits n d r') by done.
        destruct (IH (with_calls
                        (calls w ++
                         [Realm.Objects n; Realm.Begin; Realm.DeleteResults d;
                          Realm.Commit])
                        (with_realm r' w)))
          as (pre & post & cs & r1 & -> & Hpre & Hrealm & Hiff).
        exists (n :: pre), post,
          ([Realm.Objects n; Realm.Begin; Realm.DeleteResults d;
            Realm.Commit] ++ cs), r1.
        repeat split; try done; try apply Hiff.
        by apply (committed_cons n pre (realm w) d r').
    + rewrite step_skips by done.
      destruct (IH (with_calls (calls w ++ [Realm.Objects n]) w))
        as (pre & post & cs & r1 & -> & Hpre & Hrealm & Hiff).
      exists (n :: pre), post, ([Realm.Objects n] ++ cs), r1.
      repeat split; try done; try apply Hiff.
      by apply committed_skip.
Qed.

Lemma perform_all_cons (op : Operation) (ops : list Operation) w :
  perform_all (op :: ops) w = perform_all ops (perform op w).
Proof. done. Qed.

(** When the loop completes, the calls with each name in turn do the
    same. *)
Lemma each_in_turn (names : list string) w w' :
  (forall n, n ∈ names -> n ∈ schemaNames w /\ n <> "") ->
  for_of names (fun name => data ← realm_objects name; delete_data data) w
  = (Normal tt, w') ->
  perform_all (map (fun n => RemoveAll (Some n)) names) w = w'.
Proof.
  revert w. induction names as [|n names IH]; intros w Hnames.
  - simpl. by intros [= <-].
  - cbn [for_of map]. rewrite bind_run, perform_all_cons.
    destruct (Hnames n) as [Hin Hne]; [by left |].
    pose proof (preserves_remove_type schemaNames (fun _ _ => eq_refl)
                  (fun _ _ => eq_refl) n w) as Hsame.
    cbn [perform]. rewrite removeAll_keyed by done.
    destruct ((data ← realm_objects n; delete_data data) w)
      as [[[] | error] w1]; [| done].
    simpl in *. intros Hrest. apply IH; [| done].
    intros n' Hn'. rewrite Hsame. apply Hnames. by right.
Qed.

End Sweep.

(** X10. [removeAll] without a name always ends with the engine instance
    that the committed scopes of some first part of the registered names
    left, whatever made it stop: a lookup that threw or a deletion that
    threw.  It returns normally exactly when that part is the whole
    list. *)
Theorem removeAll_commits_a_prefix `{E : Realm.Engine} {App : Type}
    (w : World App) :
  exists pre post cs r1,
    schemaNames w = pre ++ post /\
    committed_each pre (realm w) cs r1 /\
    getModel (removeAll None w).2 = r1 /\
    ((removeAll None w).1 = Normal tt <-> post = []).
Proof.
  destruct (each_commits_a_prefix (schemaNames w) w)
    as (pre & post & cs & r1 & Hnames & Hpre & Hrealm & Hiff).
  exists pre, post, cs, r1. split; [done |]. split; [done |].
  rewrite removeAll_without_key. unfold removeAll_each, getModel.
  destruct (for_of (schemaNames w) _ w) as [[[] | error] w1]; simpl in *.
  - done.
  - destruct (onUncaught_untouched error w1) as [-> _].
    split; [done |]. split; [done |].
    intros Hpost. by apply Hiff in Hpost.
Qed.

(** X11. When no registered name is the empty string and [removeAll]
    without a name returns normally, it leaves the world that the calls of
    [removeAll] with each registered name, in order, leave. *)
Theorem removeAll_is_each_type_in_turn `{E : Realm.Engine} {App : Type}
    (w : World App) :
  "" ∉ schemaNames w ->
  (removeAll None w).1 = Normal tt ->
  perform_all (map (fun n => RemoveAll (Some n)) (schemaNames w)) w
  = (removeAll None w).2.
Proof.
  intros Hnames. rewrite removeAll_without_key. unfold removeAll_each.
  destruct (for_of (schemaNames w) _ w) as [[[] | error] w1] eqn:Hloop;
    [| done].
  intros _. simpl. apply each_in_turn; [| done].
  intros n Hn. split; [done |]. by intros ->.
Qed.

Lemma removeAll_is_each_type_in_turn_witness :
  ("" ∉ schemaNames Fixture.populated) /\
  (removeAll None Fixture.populated).1 = Normal tt /\
  perform_all [RemoveAll (Some "User"); RemoveAll (Some "Log")]
    Fixture.populated
  = (removeAll None Fixture.populated).2.
Proof.
  assert (Hnames : "" ∉ schemaNames Fixture.populated).
  { apply (bool_decide_unpack _). by vm_compute. }
  assert (Hrun : (removeAll None Fixture.populated).1 = Normal tt)
    by reflexivity.
  split; [exact Hnames |]. split; [exact Hrun |].
  exact (removeAll_is_each_type_in_turn Fixture.populated Hnames Hrun).
Defined.

(** ** What the translation cannot tell apart *)

Lemma convertFilter_entries (o : Js.Object) :
  NoDup (Js.keys o) ->
  convertFilter (FObject o)
  = String.concat " AND "
      (map (fun '(key, v) => key +:+ " = " +:+ Js.ToString v) o).
Proof.
  intros Hnd. unfold convertFilter.
  rewrite join_concat, push_loop, app_nil_l.
  by rewrite (clauses_of_entries o
                (fun key v => key +:+ " = " +:+ Js.ToString v)).
Qed.

(** X12. The translation does not quote: a mapping with several fields
    and a mapping whose single string value spells out the remaining
    clauses give the same query, and so do a number and the string of its
    digits.  The query does not determine the filter. *)
Theorem convertFilter_conflates (k : string) (v : Js.Value)
    (rest : Js.Object) :
  NoDup (Js.keys ((k, v) :: rest)) ->
  rest <> [] ->
  convertFilter (FObject ((k, v) :: rest))
  = convertFilter
      (FObject
         [(k, Js.VString
                (Js.ToString v +:+ " AND " +:+ convertFilter (FObject rest)))])
  /\
  (forall z,
     convertFilter (FObject [(k, Js.VNumber z)])
     = convertFilter (FObject [(k, Js.VString (Js.ToString (Js.VNumber z)))])).
Proof.
  intros Hnd Hrest. split.
  2: { intros z. by rewrite !convertFilter_entries by apply NoDup_singleton. }
  assert (Hnd' : NoDup (Js.keys rest)).
  { unfold Js.keys in *. rewrite fmap_cons in Hnd.
    by apply NoDup_cons in Hnd as [_ ?]. }
  rewrite (convertFilter_entries _ Hnd).
  rewrite (convertFilter_entries rest Hnd').
  rewrite convertFilter_entries by (apply NoDup_singleton).
  destruct rest as [|[k' v'] rest]; [done |].
  cbn [map].
  change (String.concat " AND "
            ((k +:+ " = " +:+ Js.ToString v)
             :: (k' +:+ " = " +:+ Js.ToString v')
             :: map (fun '(key, v0) => key +:+ " = " +:+ Js.ToString v0) rest))
    with ((k +:+ " = " +:+ Js.ToString v) +:+ " AND " +:+
          String.concat " AND "
            ((k' +:+ " = " +:+ Js.ToString v')
             :: map (fun '(key, v0) => key +:+ " = " +:+ Js.ToString v0)
                    rest)).
  cbn [String.concat Js.ToString]. by rewrite !append_assoc.
Qed.

Lemma convertFilter_conflates_witness :
  NoDup (Js.keys [("a", Js.VNumber 1); ("b", Js.VString "x")]) /\
  convertFilter (FObject [("a", Js.VNumber 1); ("b", Js.VString "x")])
  = convertFilter (FObject [("a", Js.VString "1 AND b = x")]).
Proof.
  assert (Hnd : NoDup (Js.keys [("a", Js.VNumber 1); ("b", Js.VString "x")])).
  { apply (bool_decide_unpack _). by vm_compute. }
  split; [exact Hnd |].
  destruct (convertFilter_conflates "a" (Js.VNumber 1)
              [("b", Js.VString "x")] Hnd) as [Hsame _]; [discriminate |].
  exact Hsame.
Defined.

(** ** Filters that are empty *)

(** X13. The empty string as a filter is no filter: the call is the call
    without one.  The empty mapping is a filter: for a registered name
    whose lookup gives a collection, the engine is asked to filter it by
    the empty query, and the result, or the error, is the engine's. *)
Theorem getItems_empty_filters `{E : Realm.Engine} {App : Type}
    (w : World App) (key : string) :
  getItems key (Some (FString "")) w = getItems key None w /\
  (key ∈ schemaNames w ->
   forall all,
     Realm.objects key (realm w) = inr (Realm.Results all) ->
     let w1 :=
       record (Realm.Filtered all "") (record (Realm.Objects key) w) in
     getItems key (Some (FObject [])) w =
     match Realm.filtered all "" (realm w) with
     | inr (Realm.Results d) => (Normal (Some d), w1)
     | inr Realm.Nullish => (Normal None, w1)
     | inl error =>
         (Throw (Js.new_Error_from error), (onUncaught error w1).2)
     end).
Proof.
  split; [done |].
  intros Hin all Hobjects w1.
  rewrite getItems_known, getItems_data_filtered by done.
  rewrite Hobjects.
  change (convertFilter (FObject [])) with "".
  cbv zeta. by destruct (Realm.filtered all "" (realm w)) as [error | [d |]].
Qed.

Lemma getItems_empty_filters_witness :
  ("User" ∈ schemaNames Fixture.populated) /\
  (getItems "User" (Some (FString "")) Fixture.populated).1
  = Normal (Some Fixture.users) /\
  (getItems "User" (Some (FObject [])) Fixture.populated).1
  = Throw (Js.new_Error_from (Js.new_Error "Invalid predicate: ")).
Proof.
  assert (Hin : "User" ∈ schemaNames Fixture.populated).
  { apply (bool_decide_unpack _). by vm_compute. }
  destruct (getItems_empty_filters Fixture.populated "User")
    as [Hstring Hmapping].
  split; [exact Hin |].
  split; [rewrite Hstring; reflexivity |].
  rewrite (Hmapping Hin Fixture.users eq_refl). reflexivity.
Defined.

(** ** What the caller of a rejected or an accepted call holds *)

Section Caller.

Context `{E : Realm.Engine} {App : Type}.

Implicit Types (w : World App).

Lemma wrapped_schema_error (key : string) :
  Js.new_Error_from (SchemaNotFoundError key)
  = Js.mkError "Error" ("Error: Schema for " +:+ key +:+ " it's not defined.").
Proof. reflexivity. Qed.

Lemma created_returned key value update item w :
  ((checkSchema key ;;
    item ← realm_write (realm_create key value update);
    mret item) w).1 = Normal item ->
  key ∈ schemaNames w /\
  exists r',
    Realm.create key value update (realm w) = inr (item, r') /\
    realm
      ((checkSchema key ;;
        item ← realm_write (realm_create key value update);
        mret item) w).2 = r'.
Proof.
  rewrite !bind_run. unfold checkSchema. rewrite indexOf_negative.
  destruct (decide (key ∈ schemaNames w)) as [Hin | Hnin].
  - rewrite bool_decide_eq_false_2 by (by intros ?). simpl.
    rewrite bind_run. unfold realm_write, realm_create, engine_write. simpl.
    destruct (Realm.create key value update (realm w))
      as [error | [item' r']]; simpl; [done |].
    intros [= ->]. split; [done |]. by exists r'.
  - by rewrite bool_decide_eq_true_2.
Qed.

Lemma returned_through_catch {A} (block method : M App A) a w :
  reports_and_rethrows block method ->
  (method w).1 = Normal a ->
  (block w).1 = Normal a /\ (method w).2 = (block w).2.
Proof.
  intros Hmethod. rewrite Hmethod.
  destruct (block w) as [[a' | error] w1]; simpl; [| done].
  by intros [= ->].
Qed.

End Caller.

(** X14. The error a caller gets for an unregistered name is the plain
    error with the message "Error: Schema for <name> it's not defined.",
    from [createItem], [updateItem], [getItems] and [removeAll] with a
    non-empty name alike. *)
Theorem rejection_message `{E : Realm.Engine} {App : Type}
    (w : World App) (key : string) :
  key ∉ schemaNames w ->
  let told :=
    Some (Js.mkError "Error"
            ("Error: Schema for " +:+ key +:+ " it's not defined.")) in
  (forall value, raised (CreateItem key value) w = told) /\
  (forall value, raised (UpdateItem key value) w = told) /\
  (forall filter, raised (GetItems key filter) w = told) /\
  (key <> "" -> raised (RemoveAll (Some key)) w = told).
Proof.
  intros Hnin told. unfold told, raised.
  rewrite <- wrapped_schema_error.
  split; [| split; [| split]].
  - intros value.
    destruct (rejected_by_block (createItem_try key value)
                (createItem key value) key w) as [-> _];
      [apply try_catch_rethrows | by apply checked_first_unknown | done].
  - intros value.
    destruct (rejected_by_block (updateItem_try key value)
                (updateItem key value) key w) as [-> _];
      [apply try_catch_rethrows | by apply checked_first_unknown | done].
  - intros filter.
    destruct (rejected_by_block (getItems_try key filter)
                (getItems key filter) key w) as [-> _];
      [apply try_catch_rethrows | by apply checked_first_unknown | done].
  - intros Hne.
    destruct (rejected_by_block (removeAll_try (Some key))
                (removeAll (Some key)) key w) as [-> _];
      [apply try_catch_rethrows | | done].
    unfold removeAll_try, truthy_key. rewrite truthy_string_ne by done.
    by apply checked_first_unknown.
Qed.

Lemma rejection_message_witness :
  ("Order" ∉ schemaNames Fixture.populated) /\
  raised (GetItems "Order" None) Fixture.populated
  = Some (Js.mkError "Error" "Error: Schema for Order it's not defined.") /\
  raised (RemoveAll (Some "Order")) Fixture.populated
  = Some (Js.mkError "Error" "Error: Schema for Order it's not defined.").
Proof.
  assert (Hnin : "Order" ∉ schemaNames Fixture.populated).
  { apply (bool_decide_unpack _). by vm_compute. }
  destruct (rejection_message Fixture.populated "Order" Hnin)
    as (_ & _ & Hget & Hremove).
  split; [exact Hnin |]. split; [apply Hget |].
  apply Hremove. discriminate.
Defined.

(** X15. A record that [createItem] or [updateItem] returns is one the
    engine made: the name was registered, the engine's create, in plain or
    in update mode, returned that record, and the instance after the call
    is the one that create left. *)
Theorem returned_record_was_created `{E : Realm.Engine} {App : Type}
    (w : World App) (key : string) (value : Js.Object)
    (item : Realm.object) :
  ((createItem key value w).1 = Normal item ->
   key ∈ schemaNames w /\
   exists r',
     Realm.create key value false (realm w) = inr (item, r') /\
     getModel (createItem key value w).2 = r') /\
  ((updateItem key value w).1 = Normal item ->
   key ∈ schemaNames w /\
   exists r',
     Realm.create key value true (realm w) = inr (item, r') /\
     getModel (updateItem key value w).2 = r').
Proof.
  unfold getModel. split; intros Hreturned.
  - destruct (returned_through_catch (createItem_try key value)
                (createItem key value) item w) as [Hblock ->];
      [apply try_catch_rethrows | done |].
    by apply created_returned.
  - destruct (returned_through_catch (updateItem_try key value)
                (updateItem key value) item w) as [Hblock ->];
      [apply try_catch_rethrows | done |].
    by apply (created_returned key value true).
Qed.

Lemma returned_record_was_created_witness :
  (createItem "User" Fixture.ann Fixture.world0).1
  = Normal Fixture.ann_record /\
  ("User" ∈ schemaNames Fixture.world0) /\
  MemRealm.rows "User"
    (getModel (createItem "User" Fixture.ann Fixture.world0).2)
  = [Fixture.ann].
Proof.
  assert (Hreturned : (createItem "User" Fixture.ann Fixture.world0).1
                      = Normal Fixture.ann_record) by reflexivity.
  destruct (returned_record_was_created Fixture.world0 "User" Fixture.ann
              Fixture.ann_record) as [Hcreate _].
  destruct (Hcreate Hreturned) as (Hin & r' & Hengine & Hmodel).
  split; [exact Hreturned |]. split; [exact Hin |].
  reflexivity.
Defined.
